(** * Lily recruiter backend: a shallow embedding of [main.py]

    The service is a set of HTTP handlers in front of a document store.
    Handlers are embedded as functions in a state-and-exception monad over
    the store; request bodies are JSON objects; Python strings are
    sequences of code points below 256, on which [str.lower] and
    [str.strip] are the maps written out below. The handle [db] is a
    pymongo [Database] or [None], and ids are bson [ObjectId]s. *)

From stdpp Require Import gmap strings list fin_maps pretty.
From Stdlib Require Import ZArith NArith Ascii String.

Set Warnings "-register-all".
Open Scope string_scope.

(** ** Python strings *)

Module PyStr.

(** [str.lower] on one code point: A-Z, and the Latin-1 capitals
    U+00C0..U+00DE except the multiplication sign U+00D7, move up by 32. *)
Definition lower_char (c : ascii) : ascii :=
  let n := N_of_ascii c in
  if ((65 <=? n) && (n <=? 90) || (192 <=? n) && (n <=? 222) && negb (n =? 215))%N
  then ascii_of_N (n + 32)
  else c.

Fixpoint lower (s : string) : string :=
  match s with
  | EmptyString => EmptyString
  | String c s' => String (lower_char c) (lower s')
  end.

(** The code points [str.strip] removes: TAB..CR, FS..US, space, NEL, NBSP. *)
Definition is_space (c : ascii) : bool :=
  let n := N_of_ascii c in
  ((9 <=? n) && (n <=? 13) || (28 <=? n) && (n <=? 32) || (n =? 133) || (n =? 160))%N.

Fixpoint lstrip (s : string) : string :=
  match s with
  | EmptyString => EmptyString
  | String c s' => if is_space c then lstrip s' else s
  end.

Fixpoint rstrip (s : string) : string :=
  match s with
  | EmptyString => EmptyString
  | String c s' =>
      match rstrip s' with
      | EmptyString => if is_space c then EmptyString else String c EmptyString
      | r => String c r
      end
  end.

Definition strip (s : string) : string := rstrip (lstrip s).

(** [k in s]: [k] occurs in [s] as a contiguous substring. *)
Fixpoint contains (k s : string) : bool :=
  String.prefix k s ||
  match s with
  | EmptyString => false
  | String _ s' => contains k s'
  end.

(** [any(k in s for k in ks)] *)
Definition any_in (ks : list string) (s : string) : bool :=
  existsb (fun k => contains k s) ks.

(** No character of [s] is white space. *)
Fixpoint no_space (s : string) : bool :=
  match s with
  | EmptyString => true
  | String c s' => negb (is_space c) && no_space s'
  end.

(** The mathematical reading of [k in s]. *)
Definition substring_of (k s : string) : Prop :=
  exists pre post, s = pre ++ k ++ post.

End PyStr.

Import PyStr.

(** ** bson's ObjectId *)

Module ObjectId.

(** A 12-byte identifier, kept as the number its 24 hex digits spell. *)
Definition oid := N.

Definition bound : N := 16 ^ 24.

Definition hex_digit (d : N) : ascii :=
  if (d <? 10)%N then ascii_of_N (48 + d) else ascii_of_N (87 + d).

Definition hex_value (c : ascii) : option N :=
  let n := N_of_ascii c in
  if ((48 <=? n) && (n <=? 57))%N then Some (n - 48)%N
  else if ((97 <=? n) && (n <=? 102))%N then Some (n - 87)%N
  else if ((65 <=? n) && (n <=? 70))%N then Some (n - 55)%N
  else None.

Fixpoint hex_acc (k : nat) (n : N) (acc : string) : string :=
  match k with
  | O => acc
  | S k' => hex_acc k' (n / 16)%N (String (hex_digit (n mod 16)%N) acc)
  end.

(** [str(oid)]: 24 lower-case hex digits. *)
Definition str (o : oid) : string := hex_acc 24 o "".

(** White space as [bytes.fromhex] skips it: TAB..CR and space. *)
Definition is_hex_space (c : ascii) : bool :=
  let n := N_of_ascii c in
  ((9 <=? n) && (n <=? 13) || (n =? 32))%N.

(** [bytes.fromhex(s)]: two adjacent hex digits for each byte, white space
    skipped in front of a byte; [None] stands for [ValueError]. *)
Fixpoint fromhex (s : string) : option (list N) :=
  match s with
  | EmptyString => Some []
  | String c s1 =>
      if is_hex_space c then fromhex s1
      else
        match hex_value c, s1 with
        | Some h, String c2 s2 =>
            match hex_value c2 with
            | Some l => cons (16 * h + l)%N <$> fromhex s2
            | None => None
            end
        | _, _ => None
        end
  end.

(** The bytes of an id read as one number, most significant byte first. *)
Definition of_bytes (bs : list N) : N :=
  fold_left (fun acc b => (256 * acc + b)%N) bs 0%N.

(** What [ObjectId(s)] builds from a string. Twelve bytes spell an id a
    stored document can have; a string of 24 characters that holds white
    space gives fewer bytes, an id that no stored document has. *)
Inductive t :=
| Id (o : oid)
| Short (bytes : list N).

(** [ObjectId(s)] for a string argument: [len(s) == 24], then
    [bytes.fromhex(s)]; [None] stands for [InvalidId]. *)
Definition parse (s : string) : option t :=
  if (String.length s =? 24)%nat then
    match fromhex s with
    | Some bs =>
        Some (if (List.length bs =? 12)%nat then Id (of_bytes bs)
              else Short bs)
    | None => None
    end
  else None.

End ObjectId.

Abbreviation oid := ObjectId.oid.

(** ** JSON values, Python dicts, exceptions *)

Inductive value :=
| VNone
| VBool (b : bool)
| VInt (n : Z)
| VStr (s : string)
| VList (l : list value)
| VDict (m : gmap string value).

(** A document as the driver hands it out: a dict whose [_id] entry, an
    ObjectId when present, is kept apart from the JSON-valued entries. *)
Record pydoc := PyDoc {
  doc_id : option oid;
  doc_fields : gmap string value
}.

Inductive exn :=
| ValidationError     (* pydantic rejects the request body *)
| InvalidId           (* bson.errors.InvalidId *)
| KeyError            (* dict.pop on an absent key *)
| StoreError          (* a driver call failed *)
| NoDatabase          (* the store is used while [db] is None *)
| NotImplementedError. (* [bool()] of a pymongo [Database] *)

Inductive result (A : Type) :=
| Ok (a : A)
| Raise (e : exn).
Arguments Ok {A} a.
Arguments Raise {A} e.

(** ** The document store *)

(** Collections keep their documents in insertion order, which is the
    order the default cursor returns them in. [faults] is the fate of the
    coming driver calls, one entry per call: [true] makes the call raise,
    and an empty list means every call succeeds. *)
Record store := Store {
  colls : gmap string (list (oid * gmap string value));
  next_oid : N;
  faults : list bool
}.

(** The module-level [db]: [None] when no database is configured. *)
Definition db_t := option store.

Definition M (A : Type) : Type := db_t -> result A * db_t.

#[global] Instance M_ret : MRet M := fun A a db => (Ok a, db).

#[global] Instance M_bind : MBind M := fun A B f m db =>
  match m db with
  | (Ok a, db') => f a db'
  | (Raise e, db') => (Raise e, db')
  end.

Definition raise {A} (e : exn) : M A := fun db => (Raise e, db).

Definition get_db : M db_t := fun db => (Ok db, db).

(** [try: m  except Exception: pass] *)
Definition try_pass (m : M unit) : M unit := fun db =>
  match m db with
  | (Ok x, db') => (Ok x, db')
  | (Raise _, db') => (Ok tt, db')
  end.

(** [for x in xs: f(x)] *)
Fixpoint for_each {A} (xs : list A) (f : A -> M unit) : M unit :=
  match xs with
  | [] => mret tt
  | x :: xs' => f x ≫= fun _ => for_each xs' f
  end.

Definition lift_option {A} (e : exn) (o : option A) : M A :=
  match o with
  | Some a => mret a
  | None => raise e
  end.

Module Driver.

Definition docs_of (c : string) (s : store) : list (oid * gmap string value) :=
  default [] (colls s !! c).

Definition to_pydoc (d : oid * gmap string value) : pydoc :=
  PyDoc (Some d.1) d.2.

(** A driver call on the configured store: the next entry of [faults]
    decides whether it raises before touching anything. *)
Definition call {A} (f : store -> result A * store) : M A := fun db =>
  match db with
  | None => (Raise NoDatabase, None)
  | Some s =>
      match faults s with
      | [] => let '(r, s') := f s in (r, Some s')
      | true :: fs => (Raise StoreError, Some (Store (colls s) (next_oid s) fs))
      | false :: fs =>
          let '(r, s') := f (Store (colls s) (next_oid s) fs) in (r, Some s')
      end
  end.

(** [db.list_collection_names()] *)
Definition list_collection_names : M (gset string) :=
  call (fun s => (Ok (dom (colls s)), s)).

(** [db[c].count_documents({})] *)
Definition count_documents (c : string) : M nat :=
  call (fun s => (Ok (List.length (docs_of c s)), s)).

Definition has_id (o : ObjectId.t) (d : oid * gmap string value) : bool :=
  match o with
  | ObjectId.Id n => (d.1 =? n)%N
  | ObjectId.Short _ => false
  end.

(** [db[c].find_one({"_id": o})] *)
Definition find_one (c : string) (o : ObjectId.t) : M (option pydoc) :=
  call (fun s => (Ok (to_pydoc <$> List.find (has_id o) (docs_of c s)), s)).

(** [list(db[c].find().limit(n))] for [n > 0] *)
Definition find_limit (c : string) (n : nat) : M (list pydoc) :=
  call (fun s => (Ok (to_pydoc <$> take n (docs_of c s)), s)).

(** [db[c].insert_one(d)] for a dict [d] without [_id]: the store picks a
    fresh id and the document goes to the end of the collection. *)
Definition insert_one (c : string) (d : gmap string value) : M oid :=
  call (fun s =>
    (Ok (next_oid s),
     Store (<[c := (docs_of c s ++ [(next_oid s, d)])%list]> (colls s))
           (next_oid s + 1) (faults s))).

(** The first document of [ds] with id [o] rewritten by [f]; [None] when
    [f] refuses it, [ds] itself when no document has that id. *)
Fixpoint update_first (o : ObjectId.t)
    (f : gmap string value -> option (gmap string value))
    (ds : list (oid * gmap string value)) :
    option (list (oid * gmap string value)) :=
  match ds with
  | [] => Some []
  | d :: ds' =>
      if has_id o d then (fun fs => (d.1, fs) :: ds') <$> f d.2
      else (d ::.) <$> update_first o f ds'
  end.

(** [$push]: append to an array field, creating it when absent; a field
    holding anything else is a write error. *)
Definition push (k : string) (v : value) (fs : gmap string value) :
    option (gmap string value) :=
  match fs !! k with
  | None => Some (<[k := VList [v]]> fs)
  | Some (VList l) => Some (<[k := VList (l ++ [v])%list]> fs)
  | Some _ => None
  end.

(** [db[c].update_one({"_id": o}, {op: ...})]: nothing happens when no
    document matches and the collection is not created. *)
Definition update_one (c : string) (o : ObjectId.t)
    (f : gmap string value -> option (gmap string value)) : M unit :=
  call (fun s =>
    match colls s !! c with
    | None => (Ok tt, s)
    | Some ds =>
        match update_first o f ds with
        | Some ds' => (Ok tt, Store (<[c := ds']> (colls s)) (next_oid s) (faults s))
        | None => (Raise StoreError, s)
        end
    end).

End Driver.

(** Modelled from the spec: [database.py], which [main.py] imports [db] and
    [create_document] from, is not among the sources. The spec calls the
    helper insert-and-return-id: it persists the document under a
    store-generated id and returns that id rendered as a string; with no
    store the write surfaces as a fault. *)
Definition create_document (c : string) (data : gmap string value) : M string :=
  o ← Driver.insert_one c data; mret (ObjectId.str o).

(** [bool(db)], as [if db:] and [if not db:] take it: [None] is false,
    and a configured handle is a pymongo [Database], which refuses truth
    testing with [NotImplementedError]. *)
Definition bool_db : M bool := fun db =>
  match db with
  | None => (Ok false, db)
  | Some _ => (Raise NotImplementedError, db)
  end.

(** [it["id"] = str(it.pop("_id"))] *)
Definition expose_id (it : pydoc) : M pydoc :=
  o ← lift_option KeyError (doc_id it);
  mret (PyDoc None (<["id" := VStr (ObjectId.str o)]> (doc_fields it))).

(** Truth value of a dict: non-empty. *)
Definition truthy_doc (it : pydoc) : bool :=
  match doc_id it with
  | Some _ => true
  | None => negb (bool_decide (dom (doc_fields it) = ∅))
  end.

(** ** Request models (pydantic) *)

(** Field validators over a JSON object: a [str] field takes only a JSON
    string; [Optional[str] = None] also takes null or absence;
    [List[str] = []] takes an array of strings or absence. *)
Module Field.

Definition required_str (body : gmap string value) (k : string) : result string :=
  match body !! k with
  | Some (VStr s) => Ok s
  | _ => Raise ValidationError
  end.

Definition optional_str (dflt : option string) (body : gmap string value)
    (k : string) : result (option string) :=
  match body !! k with
  | None => Ok dflt
  | Some VNone => Ok None
  | Some (VStr s) => Ok (Some s)
  | Some _ => Raise ValidationError
  end.

Fixpoint strs (l : list value) : result (list string) :=
  match l with
  | [] => Ok []
  | VStr s :: l' =>
      match strs l' with
      | Ok ss => Ok (s :: ss)
      | Raise e => Raise e
      end
  | _ :: _ => Raise ValidationError
  end.

Definition str_list (body : gmap string value) (k : string) : result (list string) :=
  match body !! k with
  | None => Ok []
  | Some (VList l) => strs l
  | Some _ => Raise ValidationError
  end.

Definition dump_opt (o : option string) : value :=
  match o with
  | Some s => VStr s
  | None => VNone
  end.

End Field.

#[global] Instance result_ret : MRet result := fun A a => Ok a.

#[global] Instance result_bind : MBind result := fun A B f r =>
  match r with
  | Ok a => f a
  | Raise e => Raise e
  end.

Module RoleCreate.

Record t := Make {
  title : string;
  department : option string;
  location : option string;
  level : option string;
  description : string;
  requirements : list string
}.

Definition validate (body : gmap string value) : result t :=
  ti ← Field.required_str body "title";
  de ← Field.optional_str None body "department";
  lo ← Field.optional_str None body "location";
  le ← Field.optional_str None body "level";
  ds ← Field.required_str body "description";
  rq ← Field.str_list body "requirements";
  mret (Make ti de lo le ds rq).

Definition model_dump (r : t) : gmap string value :=
  <["title" := VStr (title r)]>
  (<["department" := Field.dump_opt (department r)]>
  (<["location" := Field.dump_opt (location r)]>
  (<["level" := Field.dump_opt (level r)]>
  (<["description" := VStr (description r)]>
  (<["requirements" := VList (VStr <$> requirements r)]> ∅))))).

End RoleCreate.

Module ApplicantCreate.

Record t := Make {
  name : string;
  email : string;
  role_id : option string;
  resume_text : option string
}.

Definition validate (body : gmap string value) : result t :=
  na ← Field.required_str body "name";
  em ← Field.required_str body "email";
  ro ← Field.optional_str None body "role_id";
  re ← Field.optional_str None body "resume_text";
  mret (Make na em ro re).

Definition model_dump (a : t) : gmap string value :=
  <["name" := VStr (name a)]>
  (<["email" := VStr (email a)]>
  (<["role_id" := Field.dump_opt (role_id a)]>
  (<["resume_text" := Field.dump_opt (resume_text a)]> ∅))).

End ApplicantCreate.

Module ChatTurn.

Record t := Make {
  interview_id : string;
  message : string
}.

Definition validate (body : gmap string value) : result t :=
  ii ← Field.required_str body "interview_id";
  me ← Field.required_str body "message";
  mret (Make ii me).

End ChatTurn.

Module CodingRunRequest.

Record t := Make {
  interview_id : string;
  language : string;
  code : string;
  input : option string
}.

Definition validate (body : gmap string value) : result t :=
  ii ← Field.required_str body "interview_id";
  la ← Field.required_str body "language";
  co ← Field.required_str body "code";
  inp ← Field.optional_str (Some "") body "input";
  mret (Make ii la co inp).

End CodingRunRequest.

(** A validated body is handed to its handler; a rejected one never
    reaches it. *)
Definition with_body {T A} (validate : gmap string value -> result T)
    (handler : T -> M A) (body : gmap string value) : M A :=
  match validate body with
  | Ok x => handler x
  | Raise e => raise e
  end.

(** ** Handlers of [main.py] *)

Definition seeded_role (title department location level description : string)
    (requirements : list string) : gmap string value :=
  <["title" := VStr title]>
  (<["department" := VStr department]>
  (<["location" := VStr location]>
  (<["level" := VStr level]>
  (<["description" := VStr description]>
  (<["requirements" := VList (VStr <$> requirements)]> ∅))))).

Definition roles : list (gmap string value) :=
  [ seeded_role "Frontend Engineer" "Engineering" "Remote" "Mid"
      "Build modern web UIs with React, TypeScript, and Tailwind."
      ["React"; "TypeScript"; "CSS"; "Testing"];
    seeded_role "Backend Engineer" "Engineering" "Remote" "Senior"
      "Design APIs and services with Node/Go/Python."
      ["API design"; "Databases"; "Cloud"; "Testing"];
    seeded_role "Data Analyst" "Data" "Hybrid" "Junior"
      "Analyze data and build dashboards."
      ["SQL"; "Python"; "Visualization"] ].

(** The body of the [try] in [seed_roles]. *)
Definition seed_roles_body : M unit :=
  db ← get_db;
  match db with
  | None => mret tt
  | Some _ =>
      names ← Driver.list_collection_names;
      missing ← (if bool_decide ("role" ∉ names) then mret true
                 else n ← Driver.count_documents "role"; mret (n =? 0)%nat);
      if missing : bool
      then for_each roles (fun r => create_document "role" r ≫= fun _ => mret tt)
      else mret tt
  end.

Definition seed_roles : M unit := try_pass seed_roles_body.

(** [GET /api/roles/{role_id}]: the value under ["role"]. *)
Definition get_role (role_id : string) : M (option pydoc) :=
  db ← get_db;
  match db with
  | None => mret None
  | Some _ =>
      o ← lift_option InvalidId (ObjectId.parse role_id);
      item ← Driver.find_one "role" o;
      match item with
      | None => mret None
      | Some it =>
          if truthy_doc it then it' ← expose_id it; mret (Some it')
          else mret None
      end
  end.

(** [POST /api/roles]: the value under ["id"]. *)
Definition create_role (role : RoleCreate.t) : M string :=
  create_document "role" (RoleCreate.model_dump role).

(** [POST /api/apply]: the values under ["applicant_id"] and
    ["suggested_roles"]. *)
Definition apply (applicant : ApplicantCreate.t) : M (string * list string) :=
  aid ← create_document "applicant" (ApplicantCreate.model_dump applicant);
  mret (aid, ["Frontend Engineer"; "Backend Engineer"]).

(** The greeting is only stored, never searched; its apostrophe, U+2019,
    is kept as the bytes of its UTF-8 encoding. *)
Definition greeting : string := "Hi! I’m Lily. Tell me about yourself.".

Definition message_doc (sender text : string) : value :=
  VDict (<["sender" := VStr sender]> (<["text" := VStr text]> ∅)).

(** The document [start_interview] creates. *)
Definition interview_doc (applicant_id role_id : string) : gmap string value :=
  <["applicant_id" := VStr applicant_id]>
  (<["role_id" := VStr role_id]>
  (<["mode" := VStr "chat"]>
  (<["messages" := VList [message_doc "lily" greeting]]> ∅))).

(** [POST /api/interview/start]: the value under ["interview_id"]. *)
Definition start_interview (applicant_id role_id : string) : M string :=
  create_document "interview" (interview_doc applicant_id role_id).

Definition reply_generic : string :=
  "Thanks! Can you share a challenging project you led?".
Definition reply_frontend : string :=
  "Great frontend background. How do you manage state at scale?".
Definition reply_backend : string :=
  "Nice backend focus. How do you design resilient APIs?".

Definition frontend_keys : list string := ["react"; "frontend"; "ui"].
Definition backend_keys : list string := ["python"; "backend"; "api"].

(** The branching on [user_msg] in [chat]. *)
Definition chat_reply (user_msg : string) : string :=
  if any_in frontend_keys (lower user_msg) then reply_frontend
  else if any_in backend_keys (lower user_msg) then reply_backend
  else reply_generic.

(** The two update statements of [chat]. *)
Definition chat_appends (interview_id user_msg reply : string) : M unit :=
  o ← lift_option InvalidId (ObjectId.parse interview_id);
  Driver.update_one "interview" o
    (Driver.push "messages" (message_doc "candidate" user_msg));;
  o' ← lift_option InvalidId (ObjectId.parse interview_id);
  Driver.update_one "interview" o'
    (Driver.push "messages" (message_doc "lily" reply)).

(** [POST /api/interview/chat]: the value under ["reply"]. *)
Definition chat (turn : ChatTurn.t) : M string :=
  let user_msg := strip (ChatTurn.message turn) in
  let reply := chat_reply user_msg in
  b ← bool_db;
  (if b : bool
   then chat_appends (ChatTurn.interview_id turn) user_msg reply
   else mret tt);;
  mret reply.

Definition out_generic : string :=
  "Running tests...
Test 1: PASSED
Test 2: PASSED
All good!".
Definition out_success : string := "All tests passed.".
Definition out_compile_error : string := "Compilation error: Unexpected token".

(** [POST /api/interview/coding/run]: the value under ["stdout"]. *)
Definition run_code (req : CodingRunRequest.t) : M string :=
  let output :=
    if contains "reverse" (lower (CodingRunRequest.code req)) then out_success
    else if contains "error" (lower (CodingRunRequest.code req)) then out_compile_error
    else out_generic in
  mret output.

(** [for a in apps: a["id"] = str(a.pop("_id"))] *)
Fixpoint expose_ids (apps : list pydoc) : M (list pydoc) :=
  match apps with
  | [] => mret []
  | a :: apps' => a' ← expose_id a; rest ← expose_ids apps'; mret (a' :: rest)
  end.

(** [GET /api/admin/applicants]: the value under ["applicants"]. *)
Definition admin_applicants : M (list pydoc) :=
  b ← bool_db;
  if negb b then mret []
  else apps ← Driver.find_limit "applicant" 50; expose_ids apps.

(** The endpoints as the framework serves them: body validation first. *)
Definition post_roles : gmap string value -> M string :=
  with_body RoleCreate.validate create_role.
Definition post_apply : gmap string value -> M (string * list string) :=
  with_body ApplicantCreate.validate apply.
Definition post_chat : gmap string value -> M string :=
  with_body ChatTurn.validate chat.
Definition post_run_code : gmap string value -> M string :=
  with_body CodingRunRequest.validate run_code.

(** ** The other handlers of [main.py] *)

(** [s[:n]] *)
Fixpoint str_prefix (n : nat) (s : string) : string :=
  match n, s with
  | S n', String c s' => String c (str_prefix n' s')
  | _, _ => EmptyString
  end.

(** Truth value of [os.getenv(k)]: set, and not to the empty string. *)
Definition env_set (env : gmap string string) (k : string) : bool :=
  match env !! k with
  | Some (String _ _) => true
  | _ => false
  end.

Module Diagnostics.

(** The dict [test_database] answers, one field per key. The collection
    names come in the order the driver decides and are kept as a set. The
    marks are kept as the bytes of their UTF-8 encoding. *)
Record response := Response {
  backend : string;
  database : string;
  database_url : string;
  database_name : string;
  collections : gset string
}.

Definition running : string := "✅ Running".
Definition not_available : string := "❌ Not Available".
Definition connected : string := "✅ Connected".
Definition is_set : string := "✅ Set".
Definition not_set : string := "❌ Not Set".
Definition warning : string := "⚠️ ".

End Diagnostics.

(** [GET /test]. [env] is the process environment and [str_exc e] the text
    [str(e)] of an exception; the handler writes ["database"] before it
    lists the collections and overwrites it in the [except] branch. *)
Definition test_database (env : gmap string string) (str_exc : exn -> string) :
    M Diagnostics.response := fun db =>
  let url := if env_set env "DATABASE_URL"
             then Diagnostics.is_set else Diagnostics.not_set in
  let name := if env_set env "DATABASE_NAME"
              then Diagnostics.is_set else Diagnostics.not_set in
  match db with
  | None =>
      (Ok (Diagnostics.Response Diagnostics.running Diagnostics.not_available
             url name ∅), db)
  | Some _ =>
      match Driver.list_collection_names db with
      | (Ok names, db') =>
          (Ok (Diagnostics.Response Diagnostics.running Diagnostics.connected
                 url name names), db')
      | (Raise e, db') =>
          (Ok (Diagnostics.Response Diagnostics.running
                 (Diagnostics.warning ++ str_prefix 60 (str_exc e))
                 url name ∅), db')
      end
  end.

(** [GET /api/roles]: the value under ["roles"]. [get_documents] comes from
    [database.py], which is not among the sources, and is taken as a
    parameter. *)
Definition list_roles (get_documents : string -> M (list pydoc)) :
    M (list pydoc) :=
  b ← bool_db;
  items ← (if b : bool then get_documents "role" else mret []);
  expose_ids items.

(** [POST /api/upload-resume]: the value under ["resume_text"]; the
    upload is read and only its length is used. *)
Definition upload_resume (content : list Byte.byte) : M string :=
  mret ("Extracted " ++ pretty (List.length content) ++
        " bytes of resume text. Skills: React, Python, SQL").

Definition starter : string :=
  "// Write a function to reverse a string
function solve(s){
  return s.split('').reverse().join('')
}
console.log(solve('hello'))
".

(** [$set]: write one top-level field. *)
Definition set_field (k : string) (v : value) (fs : gmap string value) :
    option (gmap string value) :=
  Some (<[k := v]> fs).

(** [POST /api/interview/coding/start]: the values under ["starter_code"]
    and ["language"]. *)
Definition start_coding (interview_id : string) : M (string * string) :=
  b ← bool_db;
  (if b : bool then
     o ← lift_option InvalidId (ObjectId.parse interview_id);
     Driver.update_one "interview" o (set_field "mode" (VStr "coding"))
   else mret tt);;
  mret (starter, "javascript").

(** The dict [result] of [complete]. *)
Definition result_scores : gmap string value :=
  <["communication" := VInt 82]>
  (<["problem_solving" := VInt 76]>
  (<["technical" := VInt 88]>
  (<["summary" :=
      VStr "Strong fundamentals, clear communication. Consider deeper system design practice."]> ∅))).

(** [{k: v, **d}]: the entries of [d] win. *)
Definition dict_with (k : string) (v : value) (d : gmap string value) :
    gmap string value :=
  d ∪ {[k := v]}.

(** [POST /api/interview/complete]: the whole answer. *)
Definition complete (interview_id : string) : M (gmap string value) :=
  rid ← create_document "result"
          (dict_with "interview_id" (VStr interview_id) result_scores);
  mret (dict_with "result_id" (VStr rid) result_scores).

(** [GET /api/admin/interviews]: the value under ["interviews"]. *)
Definition admin_interviews : M (list pydoc) :=
  b ← bool_db;
  if negb b then mret []
  else items ← Driver.find_limit "interview" 50; expose_ids items.

(** A configured, empty store whose calls all succeed. *)
Definition empty_store : store := Store ∅ 0 [].
Definition empty_db : db_t := Some empty_store.

(** A store holding one freshly started interview, with the given fate
    of the coming driver calls. *)
Definition one_interview_store (fs : list bool) : store :=
  Store {["interview" := [(0%N, interview_doc "a1" "r1")]]} 1 fs.
Definition one_interview (fs : list bool) : db_t :=
  Some (one_interview_store fs).

(** The store right after the first start-up: the three seeded roles. *)
Definition seeded_store : store :=
  Store {["role" := [(0%N, roles !!! 0%nat); (1%N, roles !!! 1%nat);
                     (2%N, roles !!! 2%nat)]]} 3 [].

(** A role as a client would post it, optional fields left out. *)
Definition qa_role_body : gmap string value :=
  <["title" := VStr "QA Engineer"]>
  (<["description" := VStr "Break things on purpose."]> ∅).

(** An application whose email is no address, and a well-formed one. *)
Definition bad_email_body : gmap string value :=
  <["name" := VStr "Ann"]> (<["email" := VStr "not-an-email"]> ∅).

Definition ann : ApplicantCreate.t :=
  ApplicantCreate.Make "Ann" "ann@example.com" (Some "r1") (Some "Ten years of Python").

Definition ann_body : gmap string value :=
  <["name" := VStr "Ann"]>
  (<["email" := VStr "ann@example.com"]>
  (<["role_id" := VStr "r1"]>
  (<["resume_text" := VStr "Ten years of Python"]> ∅))).

(** ** Notions used in the statements *)

(** Ids are 12 bytes wide and every stored id is older than the next one
    the store hands out, so a fresh id matches no stored document. *)
Definition store_wf (s : store) : Prop :=
  (next_oid s < ObjectId.bound)%N /\
  forall c d, d ∈ Driver.docs_of c s -> (d.1 < next_oid s)%N.

(** The store after a successful [insert_one]. *)
Definition insert_doc (c : string) (d : gmap string value) (s : store) : store :=
  Store (<[c := (Driver.docs_of c s ++ [(next_oid s, d)])%list]> (colls s))
        (next_oid s + 1) (faults s).

(** Documents paired with consecutive ids starting at [n]. *)
Fixpoint with_ids (n : N) (ds : list (gmap string value)) :
    list (oid * gmap string value) :=
  match ds with
  | [] => []
  | d :: ds' => (n, d) :: with_ids (n + 1) ds'
  end.

(** A stored document as a listing returns it: [_id] gone, its rendering
    under ["id"]. *)
Definition exposed (d : oid * gmap string value) : pydoc :=
  PyDoc None (<["id" := VStr (ObjectId.str d.1)]> d.2).

(** One [POST /api/apply] after another. *)
Definition apply_all (applicants : list ApplicantCreate.t) : M unit :=
  for_each applicants (fun a => apply a ≫= fun _ => mret tt).

(** The stored documents and the id counter of [s'] are those of [s];
    only the fate of the coming driver calls may differ. *)
Definition same_data (s s' : store) : Prop :=
  colls s' = colls s /\ next_oid s' = next_oid s.

(** Shapes of a JSON field as the request models read it. *)
Definition json_str (o : option value) : Prop :=
  exists s, o = Some (VStr s).
Definition json_opt_str (o : option value) : Prop :=
  o = None \/ o = Some VNone \/ json_str o.
Definition json_str_list (o : option value) : Prop :=
  o = None \/ exists ss : list string, o = Some (VList (VStr <$> ss)).

(** What [RoleCreate] asks of a body. *)
Definition role_body_ok (body : gmap string value) : Prop :=
  json_str (body !! "title") /\
  json_opt_str (body !! "department") /\
  json_opt_str (body !! "location") /\
  json_opt_str (body !! "level") /\
  json_str (body !! "description") /\
  json_str_list (body !! "requirements").

(** What [ApplicantCreate] asks of a body. *)
Definition applicant_body_ok (body : gmap string value) : Prop :=
  json_str (body !! "name") /\
  json_str (body !! "email") /\
  json_opt_str (body !! "role_id") /\
  json_opt_str (body !! "resume_text").

(** The document [complete] stores for an interview id. *)
Definition result_doc (interview_id : string) : gmap string value :=
  dict_with "interview_id" (VStr interview_id) result_scores.

(** One [POST /api/interview/complete] after another. *)
Definition complete_all (interview_ids : list string) : M unit :=
  for_each interview_ids (fun i => complete i ≫= fun _ => mret tt).

(** An empty store whose fourth driver call fails. *)
Definition flaky_store : store := Store ∅ 0 [false; false; false; true].

(** The Role documents behind a handle. *)
Definition role_docs (db : db_t) : list (oid * gmap string value) :=
  match db with
  | Some s => Driver.docs_of "role" s
  | None => []
  end.

(** The Role documents are the same behind both handles. *)
Definition same_roles (db db' : db_t) : Prop := role_docs db' = role_docs db.

(** The ids stored in a collection, in cursor order. *)
Definition ids_of (c : string) (db : db_t) : list oid :=
  match db with
  | Some s => (Driver.docs_of c s).*1
  | None => []
  end.

(** Going from [db] to [db'] no document was removed, moved or given
    another id: in every collection the old ids are the first ids. *)
Definition grows (db db' : db_t) : Prop :=
  forall c, ids_of c db `prefix_of` ids_of c db'.

(** Every run of [m] relates the store it starts from to the store it
    leaves, whatever it returns or raises. *)
Definition preserves {A} (R : db_t -> db_t -> Prop) (m : M A) : Prop :=
  forall db, R db (m db).2.

(** * Verification *)

(** ** Substring search, lower-casing and stripping *)

Section PyStrFacts.

Lemma append_cons (a : ascii) (s t : string) :
  String a s ++ t = String a (s ++ t).
Proof. reflexivity. Qed.

Lemma prefix_app (k s : string) :
  String.prefix k s = true <-> exists post, s = k ++ post.
Proof.
  revert s. induction k as [|a k IH]; intros [|b s]; simpl.
  - split; [intros _; by exists "" | done].
  - split; [intros _; by exists (String b s) | done].
  - split; [done | intros [post H]; discriminate].
  - destruct (Ascii.ascii_dec a b) as [->|Hne].
    + rewrite IH. split; intros [post H]; exists post;
        rewrite append_cons in *; congruence.
    + split; [done | intros [post H]; rewrite append_cons in H; congruence].
Qed.

Lemma contains_substring (k s : string) :
  contains k s = true <-> substring_of k s.
Proof.
  unfold substring_of. induction s as [|c s IH]; cbn [contains].
  - rewrite orb_false_r, prefix_app. split.
    + intros [post H]. by exists "", post.
    + intros [[|? ?] [post H]]; [by exists post | discriminate].
  - rewrite orb_true_iff, prefix_app, IH. split.
    + intros [[post H] | (pre & post & H)].
      * by exists "", post.
      * exists (String c pre), post. by rewrite append_cons, H.
    + intros ([|a pre] & post & H).
      * left. by exists post.
      * right. exists pre, post. rewrite append_cons in H. congruence.
Qed.

Lemma contains_false_substring (k s : string) :
  contains k s = false <-> ~ substring_of k s.
Proof.
  rewrite <- contains_substring. destruct (contains k s); naive_solver.
Qed.

Lemma is_space_lower_char (c : ascii) : is_space (lower_char c) = is_space c.
Proof. destruct c as [[] [] [] [] [] [] [] []]; reflexivity. Qed.

Lemma lower_lstrip (s : string) : lower (lstrip s) = lstrip (lower s).
Proof.
  induction s as [|c s IH]; simpl; [done|].
  rewrite is_space_lower_char. by destruct (is_space c).
Qed.

Lemma lower_rstrip (s : string) : lower (rstrip s) = rstrip (lower s).
Proof.
  induction s as [|c s IH]; simpl; [done|].
  rewrite <- IH, is_space_lower_char.
  destruct (rstrip s); simpl; [by destruct (is_space c) | done].
Qed.

Lemma lower_strip (s : string) : lower (strip s) = strip (lower s).
Proof. unfold strip. by rewrite lower_rstrip, lower_lstrip. Qed.

(** A keyword that starts with a non-space character cannot start at a
    white-space position. *)
Lemma prefix_space_head (a : ascii) (k : string) (c : ascii) (s : string) :
  is_space a = false -> is_space c = true ->
  String.prefix (String a k) (String c s) = false.
Proof.
  intros Ha Hc. simpl. destruct (Ascii.ascii_dec a c); [congruence | done].
Qed.

Lemma contains_lstrip (a : ascii) (k s : string) :
  is_space a = false ->
  contains (String a k) (lstrip s) = contains (String a k) s.
Proof.
  intros Ha. induction s as [|c s IH]; [done|].
  cbn [lstrip]. destruct (is_space c) eqn:Hc; [|done].
  rewrite IH. cbn [contains]. by rewrite prefix_space_head.
Qed.

Lemma prefix_rstrip (k s : string) :
  no_space k = true -> String.prefix k (rstrip s) = String.prefix k s.
Proof.
  revert k. induction s as [|c s IH]; intros k Hk; [done|].
  destruct k as [|a k]; [by destruct (rstrip (String c s))|].
  simpl in Hk. apply andb_true_iff in Hk as [Ha Hk].
  apply negb_true_iff in Ha. specialize (IH k Hk).
  cbn [rstrip]. destruct (rstrip s) as [|r rs] eqn:Hr.
  - destruct (is_space c) eqn:Hc.
    + by rewrite prefix_space_head.
    + simpl. destruct (Ascii.ascii_dec a c); [|done]. exact IH.
  - simpl. destruct (Ascii.ascii_dec a c); [|done]. exact IH.
Qed.

Lemma contains_rstrip (a : ascii) (k s : string) :
  no_space (String a k) = true ->
  contains (String a k) (rstrip s) = contains (String a k) s.
Proof.
  intros Hk. induction s as [|c s IH]; [done|].
  cbn [contains]. rewrite <- IH, <- (prefix_rstrip _ (String c s) Hk).
  cbn [rstrip]. destruct (rstrip s) as [|r rs] eqn:Hr.
  - destruct (is_space c) eqn:Hc; cbn [contains]; [|done].
    by rewrite orb_false_r.
  - done.
Qed.

(** Stripping the message does not change which white-space-free keywords
    occur in it. *)
Lemma contains_strip (k s : string) :
  k <> "" -> no_space k = true -> contains k (strip s) = contains k s.
Proof.
  intros Hne Hk. destruct k as [|a k]; [done|].
  unfold strip. rewrite contains_rstrip by done.
  apply contains_lstrip. simpl in Hk.
  apply andb_true_iff in Hk as [Ha _]. by apply negb_true_iff in Ha.
Qed.

Lemma any_in_strip (ks : list string) (s : string) :
  forallb (fun k => no_space k && negb (String.eqb k "")) ks = true ->
  any_in ks (strip s) = any_in ks s.
Proof.
  unfold any_in. induction ks as [|k ks IH]; simpl; [done|].
  intros H. apply andb_true_iff in H as [Hk Hks].
  apply andb_true_iff in Hk as [Hk Hne].
  rewrite IH by done. f_equal. apply contains_strip; [|done].
  intros ->. discriminate.
Qed.

Lemma any_in_exists (ks : list string) (s : string) :
  any_in ks s = true <-> exists k, k ∈ ks /\ substring_of k s.
Proof.
  unfold any_in. rewrite existsb_exists. split.
  - intros (k & Hin & Hc). exists k. split; [by apply list_elem_of_In|].
    by apply contains_substring.
  - intros (k & Hin & Hc). exists k. split; [by apply list_elem_of_In|].
    by apply contains_substring.
Qed.

End PyStrFacts.

(** ** ObjectId: rendering and parsing are inverse *)

Section ObjectIdFacts.

Lemma hex_value_digit (d : N) :
  (d < 16)%N -> ObjectId.hex_value (ObjectId.hex_digit d) = Some d.
Proof.
  intros Hd.
  assert (Hcases : d ∈ N.of_nat <$> seq 0 16).
  { apply list_elem_of_fmap. exists (N.to_nat d). split; [lia|].
    apply elem_of_seq. lia. }
  cbn in Hcases. set_unfold in Hcases.
  destruct_or!; subst; reflexivity.
Qed.

Lemma is_hex_space_digit (d : N) :
  (d < 16)%N -> ObjectId.is_hex_space (ObjectId.hex_digit d) = false.
Proof.
  intros Hd.
  assert (Hcases : d ∈ N.of_nat <$> seq 0 16).
  { apply list_elem_of_fmap. exists (N.to_nat d). split; [lia|].
    apply elem_of_seq. lia. }
  cbn in Hcases. set_unfold in Hcases.
  destruct_or!; subst; reflexivity.
Qed.

Lemma length_hex_acc (k : nat) (n : N) (acc : string) :
  String.length (ObjectId.hex_acc k n acc) = (k + String.length acc)%nat.
Proof.
  revert n acc. induction k as [|k IH]; intros n acc; [done|].
  cbn [ObjectId.hex_acc]. rewrite IH. cbn [String.length]. lia.
Qed.

(** Two hex digits in front of a string read back as one byte. *)
Lemma fromhex_two_digits (n : N) (acc : string) (bs : list N) :
  ObjectId.fromhex acc = Some bs ->
  ObjectId.fromhex
    (String (ObjectId.hex_digit ((n / 16) mod 16))
       (String (ObjectId.hex_digit (n mod 16)) acc)) =
    Some ((n mod 256)%N :: bs).
Proof.
  intros Hacc. cbn [ObjectId.fromhex].
  rewrite is_hex_space_digit by (apply N.mod_lt; lia).
  rewrite !hex_value_digit by (apply N.mod_lt; lia).
  rewrite Hacc. cbn. do 2 f_equal.
  change 256%N with (16 * 16)%N. rewrite (N.Div0.mod_mul_r n 16 16). lia.
Qed.

(** The digits of [n], two for each of [k] bytes, read back as bytes
    that spell [n] modulo [256 ^ k]. *)
Lemma fromhex_hex_acc (k : nat) (n : N) (acc : string) (bs : list N) :
  ObjectId.fromhex acc = Some bs ->
  exists bs',
    ObjectId.fromhex (ObjectId.hex_acc (k + k) n acc) = Some (bs' ++ bs)%list /\
    List.length bs' = k /\
    forall a, fold_left (fun acc b => (256 * acc + b)%N) bs' a =
              (a * 256 ^ N.of_nat k + n mod 256 ^ N.of_nat k)%N.
Proof.
  revert n acc bs. induction k as [|k IH]; intros n acc bs Hacc.
  - exists []. split; [done|]. split; [done|]. intros a. cbn.
    rewrite N.mod_1_r. lia.
  - replace (S k + S k)%nat with (S (S (k + k))) by lia.
    cbn [ObjectId.hex_acc].
    destruct (IH (n / 16 / 16)%N _ _ (fromhex_two_digits n acc bs Hacc))
      as (bs1 & Hrun & Hlen & Hfold).
    exists (bs1 ++ [(n mod 256)%N])%list. split; [|split].
    + by rewrite Hrun, <- app_assoc.
    + rewrite length_app, Hlen. cbn. lia.
    + intros a. rewrite fold_left_app, Hfold. cbn [fold_left].
      rewrite N.Div0.div_div. change (16 * 16)%N with 256%N.
      rewrite Nat2N.inj_succ, N.pow_succ_r'.
      rewrite (N.Div0.mod_mul_r n 256 (256 ^ N.of_nat k)). lia.
Qed.

(** The rendering of an id is accepted back as that id. *)
Lemma parse_str (o : oid) :
  (o < ObjectId.bound)%N ->
  ObjectId.parse (ObjectId.str o) = Some (ObjectId.Id o).
Proof.
  intros Ho. unfold ObjectId.parse, ObjectId.str.
  rewrite length_hex_acc. cbn [String.length Nat.add Nat.eqb].
  destruct (fromhex_hex_acc 12 o "" [] eq_refl) as (bs & Hrun & Hlen & Hfold).
  change (12 + 12)%nat with 24%nat in Hrun. rewrite Hrun, app_nil_r, Hlen.
  cbn [Nat.eqb]. unfold ObjectId.of_bytes. rewrite Hfold.
  change (256 ^ N.of_nat 12)%N with ObjectId.bound.
  rewrite N.mod_small by done. done.
Qed.

Lemma length_str (o : oid) : String.length (ObjectId.str o) = 24%nat.
Proof. unfold ObjectId.str. by rewrite length_hex_acc. Qed.

Lemma str_nonempty (o : oid) : ObjectId.str o <> "".
Proof.
  intros H. pose proof (length_str o) as Hl. rewrite H in Hl. discriminate.
Qed.

End ObjectIdFacts.

(** ** Running handlers *)

Section MonadFacts.

Lemma store_eta (s : store) : Store (colls s) (next_oid s) (faults s) = s.
Proof. by destruct s. Qed.

Lemma call_healthy {A} (f : store -> result A * store) (s : store) :
  faults s = [] -> Driver.call f (Some s) = (let '(r, s') := f s in (r, Some s')).
Proof. intros H. unfold Driver.call. by rewrite H. Qed.

Lemma call_fault {A} (f : store -> result A * store) (s : store) (fs : list bool) :
  faults s = true :: fs ->
  Driver.call f (Some s) = (Raise StoreError, Some (Store (colls s) (next_oid s) fs)).
Proof. intros H. unfold Driver.call. by rewrite H. Qed.

Lemma try_pass_ok (m : M unit) (db : db_t) : (try_pass m db).1 = Ok tt.
Proof. unfold try_pass. destruct (m db) as [[[]|e] db']; reflexivity. Qed.

End MonadFacts.

(** ** The coding judge *)

Section RunCode.

(** C5. [run_code] never runs the submission: its stdout is the success
    message when the lower-cased code contains "reverse", else the
    compilation-error message when it contains "error", else the generic
    tests-passed message, and the store is left as it was. *)
Theorem run_code_stdout (req : CodingRunRequest.t) (db : db_t) :
  let code := lower (CodingRunRequest.code req) in
  (substring_of "reverse" code -> run_code req db = (Ok out_success, db)) /\
  (~ substring_of "reverse" code -> substring_of "error" code ->
     run_code req db = (Ok out_compile_error, db)) /\
  (~ substring_of "reverse" code -> ~ substring_of "error" code ->
     run_code req db = (Ok out_generic, db)).
Proof.
  intros code. unfold run_code, mret, M_ret. fold code.
  split; [|split].
  - intros Hr. apply contains_substring in Hr. by rewrite Hr.
  - intros Hr He. apply contains_false_substring in Hr.
    apply contains_substring in He. by rewrite Hr, He.
  - intros Hr He. apply contains_false_substring in Hr, He.
    by rewrite Hr, He.
Qed.

Lemma run_code_stdout_witness :
  run_code (CodingRunRequest.Make "i1" "javascript" "return s.REVERSE()" None)
    empty_db = (Ok out_success, empty_db) /\
  run_code (CodingRunRequest.Make "i1" "javascript" "syntax Error here" None)
    empty_db = (Ok out_compile_error, empty_db) /\
  run_code (CodingRunRequest.Make "i1" "javascript" "print(42)" None)
    empty_db = (Ok out_generic, empty_db).
Proof.
  split; [|split].
  - apply (run_code_stdout
      (CodingRunRequest.Make "i1" "javascript" "return s.REVERSE()" None)).
    apply contains_substring. reflexivity.
  - apply (run_code_stdout
      (CodingRunRequest.Make "i1" "javascript" "syntax Error here" None)).
    + apply contains_false_substring. reflexivity.
    + apply contains_substring. reflexivity.
  - apply (run_code_stdout
      (CodingRunRequest.Make "i1" "javascript" "print(42)" None)).
    + apply contains_false_substring. reflexivity.
    + apply contains_false_substring. reflexivity.
Defined.

Lemma coding_validate_code (body : gmap string value) (req : CodingRunRequest.t) :
  CodingRunRequest.validate body = Ok req ->
  body !! "code" = Some (VStr (CodingRunRequest.code req)).
Proof.
  unfold CodingRunRequest.validate. intros H.
  destruct (Field.required_str body "interview_id") as [ii|]; [|discriminate].
  destruct (Field.required_str body "language") as [la|]; [|discriminate].
  destruct (Field.required_str body "code") as [co|] eqn:Hco; [|discriminate].
  destruct (Field.optional_str (Some "") body "input") as [inp|]; [|discriminate].
  injection H as <-. cbn. unfold Field.required_str in Hco.
  destruct (body !! "code") as [[]|]; congruence.
Qed.

(** C10. The stdout of [run_code] is a function of the code field alone:
    two requests with equal code get the same stdout whatever their
    interview id, language and input and whatever the two stores hold, no
    store is read or changed, and the same holds of the endpoint on two
    accepted bodies that agree on ["code"]. *)
Theorem run_code_depends_on_code_only :
  (forall r1 r2 db1 db2,
     CodingRunRequest.code r1 = CodingRunRequest.code r2 ->
     (run_code r1 db1).1 = (run_code r2 db2).1) /\
  (forall r db, (run_code r db).2 = db) /\
  (forall b1 b2 r1 r2 db1 db2,
     CodingRunRequest.validate b1 = Ok r1 ->
     CodingRunRequest.validate b2 = Ok r2 ->
     b1 !! "code" = b2 !! "code" ->
     (post_run_code b1 db1).1 = (post_run_code b2 db2).1).
Proof.
  split; [|split].
  - intros r1 r2 db1 db2 Hcode. unfold run_code, mret, M_ret. cbn [fst].
    by rewrite Hcode.
  - reflexivity.
  - intros b1 b2 r1 r2 db1 db2 H1 H2 Hcode.
    unfold post_run_code, with_body. rewrite H1, H2.
    apply coding_validate_code in H1, H2. rewrite H1, H2 in Hcode.
    injection Hcode as Hcode. unfold run_code, mret, M_ret. cbn [fst].
    by rewrite Hcode.
Qed.

Lemma run_code_depends_on_code_only_witness :
  (run_code (CodingRunRequest.Make "i1" "javascript" "s.reverse()" None) None).1 =
  (run_code (CodingRunRequest.Make "i2" "python" "s.reverse()" (Some "abc"))
     empty_db).1.
Proof.
  apply (proj1 run_code_depends_on_code_only
    (CodingRunRequest.Make "i1" "javascript" "s.reverse()" None)
    (CodingRunRequest.Make "i2" "python" "s.reverse()" (Some "abc"))
    None empty_db).
  reflexivity.
Defined.

End RunCode.

(** ** The interview chat *)

Section Chat.

Lemma any_in_lower_strip (ks : list string) (m : string) :
  forallb (fun k => no_space k && negb (String.eqb k "")) ks = true ->
  any_in ks (lower (strip m)) = any_in ks (lower m).
Proof. intros H. rewrite lower_strip. by apply any_in_strip. Qed.

(** The reply computed from the stripped message is decided by the
    keywords of the message as received. *)
Lemma chat_reply_strip (m : string) :
  chat_reply (strip m) =
  if any_in frontend_keys (lower m) then reply_frontend
  else if any_in backend_keys (lower m) then reply_backend
  else reply_generic.
Proof.
  unfold chat_reply. by rewrite !any_in_lower_strip.
Qed.

Lemma chat_no_db (turn : ChatTurn.t) :
  chat turn None = (Ok (chat_reply (strip (ChatTurn.message turn))), None).
Proof. reflexivity. Qed.

Lemma chat_configured (turn : ChatTurn.t) (s : store) :
  chat turn (Some s) = (Raise NotImplementedError, Some s).
Proof. reflexivity. Qed.

Lemma chat_ok_reply (turn : ChatTurn.t) (db db' : db_t) (r : string) :
  chat turn db = (Ok r, db') -> r = chat_reply (strip (ChatTurn.message turn)).
Proof.
  destruct db as [s|]; [rewrite chat_configured | rewrite chat_no_db];
    congruence.
Qed.

Lemma update_first_no_match (o : ObjectId.t)
    (f : gmap string value -> option (gmap string value))
    (ds : list (oid * gmap string value)) :
  List.find (Driver.has_id o) ds = None -> Driver.update_first o f ds = Some ds.
Proof.
  induction ds as [|d ds IH]; [done|]. cbn [List.find Driver.update_first].
  destruct (Driver.has_id o d); [done|]. intros H. by rewrite IH.
Qed.

Lemma update_one_no_match (c : string) (o : ObjectId.t)
    (f : gmap string value -> option (gmap string value)) (s : store) :
  faults s = [] ->
  List.find (Driver.has_id o) (Driver.docs_of c s) = None ->
  Driver.update_one c o f (Some s) = (Ok tt, Some s).
Proof.
  intros Hf Hfind. unfold Driver.update_one. rewrite call_healthy by done.
  unfold Driver.docs_of in Hfind.
  destruct (colls s !! c) as [ds|] eqn:Hc; [|done].
  cbn [default] in Hfind. rewrite update_first_no_match by done.
  rewrite insert_id by done. by rewrite store_eta.
Qed.

(** An update raises nothing but [StoreError]. *)
Lemma update_one_raises (c : string) (o : ObjectId.t)
    (f : gmap string value -> option (gmap string value))
    (s : store) (e : exn) (db' : db_t) :
  Driver.update_one c o f (Some s) = (Raise e, db') -> e = StoreError.
Proof.
  unfold Driver.update_one, Driver.call. intros H.
  repeat case_match; simplify_eq; done.
Qed.

(** Whatever an update does, it leaves a configured store. *)
Lemma update_one_configured (c : string) (o : ObjectId.t)
    (f : gmap string value -> option (gmap string value)) (s : store) :
  exists r s', Driver.update_one c o f (Some s) = (r, Some s').
Proof.
  unfold Driver.update_one, Driver.call.
  repeat case_match; simplify_eq; eauto.
Qed.

(** An update whose call fails raises [StoreError]. *)
Lemma update_one_fault (c : string) (o : ObjectId.t)
    (f : gmap string value -> option (gmap string value))
    (s : store) (fs : list bool) :
  faults s = true :: fs ->
  Driver.update_one c o f (Some s) =
    (Raise StoreError, Some (Store (colls s) (next_oid s) fs)).
Proof. intros H. unfold Driver.update_one. by rewrite (call_fault _ _ fs). Qed.

(** An update whose call goes through uses up one entry of [faults]. *)
Lemma update_one_passes (c : string) (o : ObjectId.t)
    (f : gmap string value -> option (gmap string value))
    (s : store) (fs : list bool) :
  faults s = false :: fs ->
  exists r s', Driver.update_one c o f (Some s) = (r, Some s') /\
    faults s' = fs /\ (forall e, r = Raise e -> e = StoreError).
Proof.
  intros H. unfold Driver.update_one, Driver.call. rewrite H. cbn [colls].
  destruct (colls s !! c) as [ds|]; [|by eexists _, _].
  destruct (Driver.update_first o f ds); eexists _, _;
    (split; [reflexivity|]); (split; [done|]); congruence.
Qed.

Lemma chat_appends_invalid_id (i u r : string) (s : store) :
  ObjectId.parse i = None ->
  chat_appends i u r (Some s) = (Raise InvalidId, Some s).
Proof. intros H. unfold chat_appends, mbind, M_bind. by rewrite H. Qed.

Lemma chat_appends_first_call_fails (i u r : string) (s : store)
    (q : ObjectId.t) (fs : list bool) :
  ObjectId.parse i = Some q ->
  faults s = true :: fs ->
  chat_appends i u r (Some s) =
    (Raise StoreError, Some (Store (colls s) (next_oid s) fs)).
Proof.
  intros Hid Hf. unfold chat_appends, mbind, M_bind. rewrite Hid.
  cbn [lift_option]. unfold mret, M_ret.
  by rewrite (update_one_fault _ _ _ _ fs).
Qed.

Lemma chat_appends_second_call_fails (i u r : string) (s : store)
    (q : ObjectId.t) (fs : list bool) :
  ObjectId.parse i = Some q ->
  faults s = false :: true :: fs ->
  exists s', chat_appends i u r (Some s) = (Raise StoreError, Some s').
Proof.
  intros Hid Hf. unfold chat_appends, mbind, M_bind. rewrite Hid.
  cbn [lift_option]. unfold mret, M_ret.
  destruct (update_one_passes "interview" q
    (Driver.push "messages" (message_doc "candidate" u)) s (true :: fs) Hf)
    as (r1 & s1 & -> & Hf1 & He).
  destruct r1 as [[]|e].
  - rewrite (update_one_fault _ _ _ _ fs) by done. eauto.
  - rewrite (He e eq_refl). eauto.
Qed.

Lemma chat_appends_no_match (i u r : string) (s : store) (q : ObjectId.t) :
  ObjectId.parse i = Some q ->
  faults s = [] ->
  List.find (Driver.has_id q) (Driver.docs_of "interview" s) = None ->
  chat_appends i u r (Some s) = (Ok tt, Some s).
Proof.
  intros Hid Hf Hfind. unfold chat_appends, mbind, M_bind. rewrite Hid.
  cbn [lift_option]. unfold mret, M_ret.
  rewrite update_one_no_match by done.
  by rewrite update_one_no_match by done.
Qed.

Lemma update_first_push_twice (o : ObjectId.t) (k : string) (v1 v2 : value)
    (ds : list (oid * gmap string value)) :
  (forall d, List.find (Driver.has_id o) ds = Some d ->
     d.2 !! k = None \/ exists l, d.2 !! k = Some (VList l)) ->
  exists ds1 ds2,
    Driver.update_first o (Driver.push k v1) ds = Some ds1 /\
    Driver.update_first o (Driver.push k v2) ds1 = Some ds2.
Proof.
  induction ds as [|d ds IH]; intros Hd.
  - by exists [], [].
  - cbn [List.find Driver.update_first] in *.
    destruct (Driver.has_id o d) eqn:Hid.
    + assert (exists l, Driver.push k v1 d.2 = Some (<[k := VList l]> d.2))
        as [l Hp].
      { unfold Driver.push. destruct (Hd d eq_refl) as [-> | [l ->]]; eauto. }
      rewrite Hp. eexists _, _. split; [reflexivity|].
      cbn [Driver.update_first fmap option_fmap option_map].
      assert (Driver.has_id o (d.1, <[k := VList l]> d.2) = true) as ->.
      { by destruct o. }
      unfold Driver.push. cbn [snd]. by rewrite lookup_insert_eq.
    + destruct (IH Hd) as (ds1 & ds2 & H1 & H2). rewrite H1.
      eexists _, _. split; [reflexivity|].
      cbn [Driver.update_first fmap option_fmap option_map].
      by rewrite Hid, H2.
Qed.

(** With every driver call succeeding and the interview's [messages]
    absent or an array, both appends complete. *)
Lemma chat_appends_healthy (i u r : string) (s : store) (q : ObjectId.t) :
  ObjectId.parse i = Some q ->
  faults s = [] ->
  (forall d, List.find (Driver.has_id q) (Driver.docs_of "interview" s) = Some d ->
     d.2 !! "messages" = None \/ exists l, d.2 !! "messages" = Some (VList l)) ->
  exists s', chat_appends i u r (Some s) = (Ok tt, Some s').
Proof.
  intros Hid Hf Hd. unfold chat_appends, mbind, M_bind. rewrite Hid.
  cbn [lift_option]. unfold mret, M_ret, Driver.update_one.
  rewrite call_healthy by done. unfold Driver.docs_of in Hd.
  destruct (colls s !! "interview") as [ds|] eqn:Hc.
  - cbn [default] in Hd.
    destruct (update_first_push_twice q "messages"
      (message_doc "candidate" u) (message_doc "lily" r) ds Hd)
      as (ds1 & ds2 & H1 & H2).
    rewrite H1. rewrite call_healthy by done. cbn [colls].
    rewrite lookup_insert_eq, H2. eauto.
  - rewrite call_healthy by done. rewrite Hc. eauto.
Qed.

(** What the appends raise is [InvalidId] or [StoreError], and the
    statement after them is not reached. *)
Lemma chat_appends_raise (i u r : string) (db db' : db_t) (e : exn) :
  chat_appends i u r db = (Raise e, db') ->
  (e = InvalidId \/ e = StoreError \/ e = NoDatabase) /\
  forall reply : string,
    (chat_appends i u r ≫= fun _ => mret reply) db = (Raise e, db').
Proof.
  intros H. split; [|by intros reply; unfold mbind, M_bind at 1; rewrite H].
  revert H. unfold chat_appends, mbind, M_bind.
  destruct (ObjectId.parse i) as [q|]; cbn [lift_option];
    unfold mret, M_ret, raise; [|intros; simplify_eq; auto].
  destruct db as [s|]; [|cbn; intros; simplify_eq; auto].
  destruct (update_one_configured "interview" q
    (Driver.push "messages" (message_doc "candidate" u)) s)
    as (r1 & s1 & H1).
  rewrite H1. destruct r1 as [[]|e1].
  - intros H%update_one_raises. auto.
  - apply update_one_raises in H1. intros; simplify_eq; auto.
Qed.

(** C3, on the code. [chat] returns the computed reply only when no
    store is configured. On a configured store every call raises at the
    truth test of the handle, before either append is tried, so the reply
    is lost whether or not persisting would have failed. The two update
    statements behind the test are unguarded as well: run on a configured
    store they raise [InvalidId] for an id [ObjectId] rejects and
    [StoreError] when the first or the second update call fails, and what
    they raise passes the [return] by. They complete, the store's calls
    succeeding, when no interview has the id, which changes nothing, and
    when the interview's [messages] is absent or an array. *)
Theorem chat_loses_the_reply (turn : ChatTurn.t) :
  let user_msg := strip (ChatTurn.message turn) in
  let reply := chat_reply user_msg in
  let id := ObjectId.parse (ChatTurn.interview_id turn) in
  let appends := chat_appends (ChatTurn.interview_id turn) user_msg reply in
  chat turn None = (Ok reply, None) /\
  (forall s, chat turn (Some s) = (Raise NotImplementedError, Some s)) /\
  (forall db r db', chat turn db = (Ok r, db') -> db = None /\ r = reply) /\
  (forall s, id = None -> appends (Some s) = (Raise InvalidId, Some s)) /\
  (forall s q fs, id = Some q -> faults s = true :: fs ->
     appends (Some s) =
       (Raise StoreError, Some (Store (colls s) (next_oid s) fs))) /\
  (forall s q fs, id = Some q -> faults s = false :: true :: fs ->
     exists s', appends (Some s) = (Raise StoreError, Some s')) /\
  (forall db e db', appends db = (Raise e, db') ->
     (appends ≫= fun _ => mret reply) db = (Raise e, db')) /\
  (forall s q, id = Some q -> faults s = [] ->
     List.find (Driver.has_id q) (Driver.docs_of "interview" s) = None ->
     appends (Some s) = (Ok tt, Some s)) /\
  (forall s q, id = Some q -> faults s = [] ->
     (forall d,
        List.find (Driver.has_id q) (Driver.docs_of "interview" s) = Some d ->
        d.2 !! "messages" = None \/
        exists l, d.2 !! "messages" = Some (VList l)) ->
     exists s', appends (Some s) = (Ok tt, Some s')).
Proof.
  intros user_msg reply id appends.
  split; [|split; [|split; [|split; [|split; [|split; [|split; [|split]]]]]]].
  - apply chat_no_db.
  - apply chat_configured.
  - intros db r db' H. split; [|by apply chat_ok_reply in H].
    destruct db as [s|]; [|done]. by rewrite chat_configured in H.
  - intros s. apply chat_appends_invalid_id.
  - intros s q fs. apply chat_appends_first_call_fails.
  - intros s q fs. apply chat_appends_second_call_fails.
  - intros db e db' H. by apply chat_appends_raise.
  - intros s q. apply chat_appends_no_match.
  - intros s q. apply chat_appends_healthy.
Qed.

(** The turn of the claim's scenario on a store holding the interview: no
    reply, with the store healthy, with its first call failing and with
    its second call failing alike. *)
Example chat_loses_the_reply_on_an_interview :
  chat (ChatTurn.Make (ObjectId.str 0%N) "hello") (one_interview []) =
    (Raise NotImplementedError, one_interview []) /\
  chat (ChatTurn.Make (ObjectId.str 0%N) "hello") (one_interview [true]) =
    (Raise NotImplementedError, one_interview [true]) /\
  chat (ChatTurn.Make (ObjectId.str 0%N) "hello") (one_interview [false; true]) =
    (Raise NotImplementedError, one_interview [false; true]) /\
  chat_appends (ObjectId.str 0%N) "hello" reply_generic
      (one_interview [false; true]) =
    (Raise StoreError,
     Some (Store
       {["interview" :=
           [(0%N, <["messages" :=
                      VList [message_doc "lily" greeting;
                             message_doc "candidate" "hello"]]>
                    (interview_doc "a1" "r1"))]]} 1 [])) /\
  chat_appends "not-an-id" "hello" reply_generic (one_interview []) =
    (Raise InvalidId, one_interview []).
Proof. repeat apply conj; vm_compute; reflexivity. Qed.

(** C4, on the code. On a configured store [chat] gives no reply at all,
    whatever the message: the truth test of the handle raises after the
    reply has been chosen and before it is returned. With no store
    configured the claim's two messages get the replies it names. *)
Theorem chat_gives_no_reply_on_a_store :
  (forall turn s, chat turn (Some s) = (Raise NotImplementedError, Some s)) /\
  chat (ChatTurn.Make (ObjectId.str 0%N) "I love React and also Python")
      (one_interview []) =
    (Raise NotImplementedError, one_interview []) /\
  chat (ChatTurn.Make (ObjectId.str 0%N) "I enjoy hiking") (one_interview []) =
    (Raise NotImplementedError, one_interview []) /\
  chat (ChatTurn.Make (ObjectId.str 0%N) "I love React and also Python") None =
    (Ok "Great frontend background. How do you manage state at scale?", None) /\
  chat (ChatTurn.Make (ObjectId.str 0%N) "I enjoy hiking") None =
    (Ok "Thanks! Can you share a challenging project you led?", None).
Proof.
  split; [apply chat_configured|]. repeat apply conj; vm_compute; reflexivity.
Qed.

(** The two appends, run on a store holding the interview, put the
    candidate message and then the reply after the greeting. *)
Example chat_appends_in_order :
  chat_appends (ObjectId.str 0%N) "I love Python" reply_backend
      (one_interview []) =
    (Ok tt,
     Some (Store
       {["interview" :=
           [(0%N, <["messages" :=
                      VList [message_doc "lily" greeting;
                             message_doc "candidate" "I love Python";
                             message_doc "lily" reply_backend]]>
                    (interview_doc "a1" "r1"))]]} 1 [])).
Proof. vm_compute. reflexivity. Qed.

End Chat.

(** ** The store: inserting and finding *)

Section StoreFacts.

Lemma insert_one_healthy (c : string) (d : gmap string value) (s : store) :
  faults s = [] ->
  Driver.insert_one c d (Some s) = (Ok (next_oid s), Some (insert_doc c d s)).
Proof. intros H. unfold Driver.insert_one. by rewrite call_healthy. Qed.

Lemma create_document_healthy (c : string) (d : gmap string value) (s : store) :
  faults s = [] ->
  create_document c d (Some s) =
    (Ok (ObjectId.str (next_oid s)), Some (insert_doc c d s)).
Proof.
  intros H. unfold create_document, mbind, M_bind.
  by rewrite insert_one_healthy.
Qed.

Lemma find_one_healthy (c : string) (o : ObjectId.t) (s : store) :
  faults s = [] ->
  Driver.find_one c o (Some s) =
    (Ok (Driver.to_pydoc <$> List.find (Driver.has_id o) (Driver.docs_of c s)),
     Some s).
Proof. intros H. unfold Driver.find_one. by rewrite call_healthy. Qed.

Lemma docs_of_insert_doc (c : string) (d : gmap string value) (s : store) :
  Driver.docs_of c (insert_doc c d s) =
    (Driver.docs_of c s ++ [(next_oid s, d)])%list.
Proof. unfold Driver.docs_of at 1, insert_doc. cbn [colls]. by rewrite lookup_insert_eq. Qed.

Lemma docs_of_insert_doc_ne (c c' : string) (d : gmap string value) (s : store) :
  c <> c' -> Driver.docs_of c' (insert_doc c d s) = Driver.docs_of c' s.
Proof.
  intros H. unfold Driver.docs_of, insert_doc. cbn [colls].
  by rewrite lookup_insert_ne.
Qed.

(** A document appended under a fresh id is the one a search by that id
    finds. *)
Lemma find_fresh (o : oid) (d : gmap string value)
    (ds : list (oid * gmap string value)) :
  (forall x, x ∈ ds -> (x.1 < o)%N) ->
  List.find (Driver.has_id (ObjectId.Id o)) (ds ++ [(o, d)])%list = Some (o, d).
Proof.
  induction ds as [|x ds IH]; intros Hlt.
  - cbn. by rewrite N.eqb_refl.
  - cbn [app List.find]. unfold Driver.has_id at 1.
    assert (x.1 < o)%N as Hx by (apply Hlt; left).
    destruct (N.eqb_spec x.1 o) as [Heq|_]; [lia|].
    apply IH. intros y Hy. apply Hlt. by right.
Qed.

(** Inserting keeps the store well formed while ids last. *)
Lemma store_wf_insert_doc (c : string) (d : gmap string value) (s : store) :
  store_wf s -> (next_oid s + 1 < ObjectId.bound)%N ->
  store_wf (insert_doc c d s).
Proof.
  intros [Hb Hlt] Hb'. split; [done|]. intros c' x Hx. cbn [insert_doc next_oid].
  destruct (decide (c = c')) as [<-|Hne].
  - rewrite docs_of_insert_doc in Hx. apply elem_of_app in Hx as [Hx|Hx].
    + specialize (Hlt _ _ Hx). lia.
    + apply list_elem_of_singleton in Hx as ->. cbn. lia.
  - rewrite docs_of_insert_doc_ne in Hx by done. specialize (Hlt _ _ Hx). lia.
Qed.

Lemma store_wf_empty : store_wf empty_store.
Proof.
  split; [done|]. intros c d Hd. unfold Driver.docs_of in Hd. cbn in Hd.
  rewrite lookup_empty in Hd. by apply elem_of_nil in Hd.
Qed.

End StoreFacts.

(** ** The role catalog *)

Section Roles.

Lemma get_role_no_db (role_id : string) : get_role role_id None = (Ok None, None).
Proof. reflexivity. Qed.

Lemma get_role_invalid_id (role_id : string) (s : store) :
  ObjectId.parse role_id = None ->
  get_role role_id (Some s) = (Raise InvalidId, Some s).
Proof.
  intros H. unfold get_role, mbind, M_bind, get_db. by rewrite H.
Qed.

Lemma has_id_eq (q : ObjectId.t) (d : oid * gmap string value) :
  Driver.has_id q d = true -> q = ObjectId.Id d.1.
Proof. destruct q as [n|bs]; [|done]. by intros ->%N.eqb_eq. Qed.

Lemma get_role_healthy (role_id : string) (s : store) (q : ObjectId.t) :
  ObjectId.parse role_id = Some q -> faults s = [] ->
  get_role role_id (Some s) =
    (Ok (exposed <$> List.find (Driver.has_id q) (Driver.docs_of "role" s)),
     Some s).
Proof.
  intros Hid Hf. unfold get_role, mbind, M_bind, get_db. rewrite Hid.
  cbn [lift_option]. unfold mret at 1, M_ret at 1.
  rewrite find_one_healthy by done.
  by destruct (List.find _ _) as [d|].
Qed.

Lemma get_role_call_fails (role_id : string) (s : store) (q : ObjectId.t)
    (fs : list bool) :
  ObjectId.parse role_id = Some q -> faults s = true :: fs ->
  get_role role_id (Some s) =
    (Raise StoreError, Some (Store (colls s) (next_oid s) fs)).
Proof.
  intros Hid Hf. unfold get_role, mbind, M_bind, get_db. rewrite Hid.
  cbn [lift_option]. unfold mret at 1, M_ret at 1, Driver.find_one.
  by rewrite (call_fault _ _ fs).
Qed.

(** The claim that [get] never raises does not hold: on a configured
    store an id that [ObjectId] rejects raises [InvalidId] out of the
    handler, and so does, as [StoreError], a store call that fails. *)
Lemma get_role_malformed_id_raises :
  get_role "not-an-id" empty_db = (Raise InvalidId, empty_db) /\
  get_role (ObjectId.str 0%N) (one_interview [true]) =
    (Raise StoreError, one_interview []).
Proof. split; vm_compute; reflexivity. Qed.

(** C2, amended. [get_role] answers null when no store is configured.
    On a configured store whose call succeeds, an id that [ObjectId]
    accepts gets null when no Role document has it and the stored Role,
    its id rendered under the plain field ["id"], when one has it. It
    raises instead of answering null when [ObjectId] rejects the id
    ([InvalidId]) and when the store call fails ([StoreError]). *)
Theorem get_role_null_or_document (role_id : string) :
  get_role role_id None = (Ok None, None) /\
  (forall s q, ObjectId.parse role_id = Some q -> faults s = [] ->
     List.find (Driver.has_id q) (Driver.docs_of "role" s) = None ->
     get_role role_id (Some s) = (Ok None, Some s)) /\
  (forall s q d, ObjectId.parse role_id = Some q -> faults s = [] ->
     List.find (Driver.has_id q) (Driver.docs_of "role" s) = Some d ->
     get_role role_id (Some s) = (Ok (Some (exposed d)), Some s) /\
     q = ObjectId.Id d.1 /\
     doc_fields (exposed d) !! "id" = Some (VStr (ObjectId.str d.1))) /\
  (forall s, ObjectId.parse role_id = None ->
     get_role role_id (Some s) = (Raise InvalidId, Some s)) /\
  (forall s q fs, ObjectId.parse role_id = Some q -> faults s = true :: fs ->
     get_role role_id (Some s) =
       (Raise StoreError, Some (Store (colls s) (next_oid s) fs))).
Proof.
  split; [|split; [|split; [|split]]].
  - apply get_role_no_db.
  - intros s q Hid Hf Hfind. rewrite (get_role_healthy _ _ q) by done.
    by rewrite Hfind.
  - intros s q d Hid Hf Hfind. rewrite (get_role_healthy _ _ q) by done.
    rewrite Hfind. split; [done|].
    apply find_some in Hfind as [_ Hd]. split; [by apply has_id_eq|].
    unfold exposed. cbn [doc_fields]. by rewrite lookup_insert_eq.
  - apply get_role_invalid_id.
  - intros s q fs. apply get_role_call_fails.
Qed.

Lemma get_role_null_or_document_witness :
  get_role (ObjectId.str 1%N) (Some seeded_store) =
    (Ok (Some (exposed (1%N, roles !!! 1%nat))), Some seeded_store) /\
  get_role (ObjectId.str 9%N) (Some seeded_store) = (Ok None, Some seeded_store) /\
  get_role "0000000000000000000000  " (Some seeded_store) =
    (Ok None, Some seeded_store) /\
  get_role "role-1" (Some seeded_store) = (Raise InvalidId, Some seeded_store) /\
  get_role (ObjectId.str 0%N) (one_interview [true]) =
    (Raise StoreError, one_interview []).
Proof.
  split; [|split; [|split; [|split]]].
  - apply (proj1 (proj2 (proj2 (get_role_null_or_document (ObjectId.str 1%N))))
      seeded_store (ObjectId.Id 1%N) (1%N, roles !!! 1%nat)); reflexivity.
  - apply (proj1 (proj2 (get_role_null_or_document (ObjectId.str 9%N)))
      seeded_store (ObjectId.Id 9%N)); reflexivity.
  - apply (proj1 (proj2 (get_role_null_or_document "0000000000000000000000  "))
      seeded_store (ObjectId.Short (replicate 11 0%N))); reflexivity.
  - apply (proj1 (proj2 (proj2 (proj2 (get_role_null_or_document "role-1"))))
      seeded_store). reflexivity.
  - apply (proj2 (proj2 (proj2 (proj2
      (get_role_null_or_document (ObjectId.str 0%N)))))
      (one_interview_store [true]) (ObjectId.Id 0%N) []); reflexivity.
Defined.

Lemma result_bind_ok {A B} (r : result A) (f : A -> result B) (b : B) :
  r ≫= f = Ok b -> exists a, r = Ok a /\ f a = Ok b.
Proof. destruct r as [a|e]; [eauto | discriminate]. Qed.

Lemma required_str_ok (body : gmap string value) (k s : string) :
  Field.required_str body k = Ok s -> body !! k = Some (VStr s).
Proof.
  unfold Field.required_str. intros H.
  destruct (body !! k) as [[]|]; congruence.
Qed.

Lemma optional_str_ok (body : gmap string value) (k : string) (o : option string) :
  Field.optional_str None body k = Ok o ->
  Field.dump_opt o = default VNone (body !! k).
Proof.
  unfold Field.optional_str. intros H.
  destruct (body !! k) as [[]|]; simplify_eq; reflexivity.
Qed.

Lemma strs_ok (l : list value) (ss : list string) :
  Field.strs l = Ok ss -> l = VStr <$> ss.
Proof.
  revert ss. induction l as [|v l IH]; intros ss H; cbn in H.
  - by simplify_eq.
  - destruct v; try discriminate.
    destruct (Field.strs l) as [ss'|]; [|discriminate].
    simplify_eq. cbn. by rewrite <- IH.
Qed.

Lemma str_list_ok (body : gmap string value) (k : string) (ss : list string) :
  Field.str_list body k = Ok ss ->
  VList (VStr <$> ss) = default (VList []) (body !! k).
Proof.
  unfold Field.str_list. intros H.
  destruct (body !! k) as [[]|]; simplify_eq; cbn; [|done].
  by rewrite <- (strs_ok _ _ H).
Qed.

(** What a body accepted as a [RoleCreate] says about the model built
    from it: each field is the body's, or its default. *)
Lemma role_validate_ok (body : gmap string value) (role : RoleCreate.t) :
  RoleCreate.validate body = Ok role ->
  body !! "title" = Some (VStr (RoleCreate.title role)) /\
  Field.dump_opt (RoleCreate.department role) = default VNone (body !! "department") /\
  Field.dump_opt (RoleCreate.location role) = default VNone (body !! "location") /\
  Field.dump_opt (RoleCreate.level role) = default VNone (body !! "level") /\
  body !! "description" = Some (VStr (RoleCreate.description role)) /\
  VList (VStr <$> RoleCreate.requirements role) =
    default (VList []) (body !! "requirements").
Proof.
  unfold RoleCreate.validate. intros H.
  apply result_bind_ok in H as (ti & Hti & H).
  apply result_bind_ok in H as (de & Hde & H).
  apply result_bind_ok in H as (lo & Hlo & H).
  apply result_bind_ok in H as (le & Hle & H).
  apply result_bind_ok in H as (ds & Hds & H).
  apply result_bind_ok in H as (rq & Hrq & H).
  injection H as <-. cbn.
  repeat apply conj; auto using required_str_ok, optional_str_ok, str_list_ok.
Qed.

(** C8. A body accepted as a Role is stored by [POST /api/roles], and
    fetching the returned id gives back a document with a non-empty ["id"]
    whose other fields are the input's: title and description as sent,
    department, location and level as sent or null, requirements as sent
    or the empty list. *)
Theorem create_role_then_get
    (body : gmap string value) (role : RoleCreate.t) (s : store) :
  RoleCreate.validate body = Ok role -> faults s = [] -> store_wf s ->
  exists rid s' item,
    post_roles body (Some s) = (Ok rid, Some s') /\
    rid <> "" /\
    get_role rid (Some s') = (Ok (Some (PyDoc None item)), Some s') /\
    item !! "id" = Some (VStr rid) /\
    item !! "title" = body !! "title" /\
    item !! "description" = body !! "description" /\
    item !! "department" = Some (default VNone (body !! "department")) /\
    item !! "location" = Some (default VNone (body !! "location")) /\
    item !! "level" = Some (default VNone (body !! "level")) /\
    item !! "requirements" = Some (default (VList []) (body !! "requirements")) /\
    dom item = {["id"; "title"; "department"; "location"; "level";
                 "description"; "requirements"]}.
Proof.
  intros Hv Hf [Hb Hlt].
  exists (ObjectId.str (next_oid s)),
    (insert_doc "role" (RoleCreate.model_dump role) s),
    (<["id" := VStr (ObjectId.str (next_oid s))]> (RoleCreate.model_dump role)).
  destruct (role_validate_ok _ _ Hv) as (Hti & Hde & Hlo & Hle & Hds & Hrq).
  split; [|split; [|split]].
  - unfold post_roles, with_body. rewrite Hv. unfold create_role.
    by apply create_document_healthy.
  - apply str_nonempty.
  - rewrite (get_role_healthy _ _ (ObjectId.Id (next_oid s))).
    + rewrite docs_of_insert_doc, find_fresh; [done|]. intros x. apply Hlt.
    + by apply parse_str.
    + done.
  - unfold RoleCreate.model_dump. rewrite Hti, Hds, <- Hde, <- Hlo, <- Hle, <- Hrq.
    repeat apply conj; by simplify_map_eq.
Qed.

Lemma store_wf_seeded : store_wf seeded_store.
Proof.
  split; [done|]. intros c d. unfold Driver.docs_of, seeded_store. cbn [colls].
  destruct (decide (c = "role")) as [->|Hne].
  - rewrite lookup_singleton_eq. cbn [default next_oid].
    set_unfold. intros [->|[->|[->|[]]]]; cbn; lia.
  - rewrite lookup_singleton_ne by done. cbn. by intros ?%elem_of_nil.
Qed.

Lemma create_role_then_get_witness :
  exists rid s' item,
    post_roles qa_role_body (Some seeded_store) = (Ok rid, Some s') /\
    rid <> "" /\
    get_role rid (Some s') = (Ok (Some (PyDoc None item)), Some s') /\
    item !! "title" = Some (VStr "QA Engineer") /\
    item !! "level" = Some VNone /\
    item !! "requirements" = Some (VList []).
Proof.
  destruct (create_role_then_get qa_role_body
    (RoleCreate.Make "QA Engineer" None None None "Break things on purpose." [])
    seeded_store ltac:(vm_compute; reflexivity) eq_refl store_wf_seeded)
    as (rid & s' & item & Hpost & Hrid & Hget & _ & Hti & _ & _ & _ & Hle & Hrq & _).
  exists rid, s', item. repeat apply conj; done.
Defined.

End Roles.

(** ** Start-up seeding *)

Section Seeding.

Lemma list_collection_names_healthy (s : store) :
  faults s = [] ->
  Driver.list_collection_names (Some s) = (Ok (dom (colls s)), Some s).
Proof. intros H. unfold Driver.list_collection_names. by rewrite call_healthy. Qed.

Lemma count_documents_healthy (c : string) (s : store) :
  faults s = [] ->
  Driver.count_documents c (Some s) =
    (Ok (List.length (Driver.docs_of c s)), Some s).
Proof. intros H. unfold Driver.count_documents. by rewrite call_healthy. Qed.

(** The store after a run of successful inserts into [c]. *)
Lemma for_each_create_healthy (c : string) (ds : list (gmap string value))
    (s : store) :
  faults s = [] ->
  for_each ds (fun r => create_document c r ≫= fun _ => mret tt) (Some s) =
    (Ok tt, Some (foldl (fun s d => insert_doc c d s) s ds)).
Proof.
  revert s. induction ds as [|d ds IH]; intros s Hf; [done|].
  cbn [for_each foldl]. unfold mbind at 1, M_bind at 1.
  unfold mbind at 1, M_bind at 1. rewrite create_document_healthy by done.
  unfold mret at 1, M_ret at 1. by apply IH.
Qed.

Lemma docs_of_foldl_insert (c : string) (ds : list (gmap string value))
    (s : store) :
  Driver.docs_of c (foldl (fun s d => insert_doc c d s) s ds) =
    (Driver.docs_of c s ++ with_ids (next_oid s) ds)%list.
Proof.
  revert s. induction ds as [|d ds IH]; intros s; cbn [foldl with_ids].
  - by rewrite app_nil_r.
  - rewrite IH, docs_of_insert_doc. cbn [insert_doc next_oid].
    by rewrite <- app_assoc.
Qed.

Lemma docs_of_foldl_insert_ne (c c' : string) (ds : list (gmap string value))
    (s : store) :
  c <> c' ->
  Driver.docs_of c' (foldl (fun s d => insert_doc c d s) s ds) =
    Driver.docs_of c' s.
Proof.
  intros Hne. revert s. induction ds as [|d ds IH]; intros s; [done|].
  cbn [foldl]. by rewrite IH, docs_of_insert_doc_ne.
Qed.

Lemma faults_foldl_insert (c : string) (ds : list (gmap string value))
    (s : store) :
  faults (foldl (fun s d => insert_doc c d s) s ds) = faults s.
Proof. revert s. induction ds as [|d ds IH]; intros s; [done|]. cbn [foldl]. by rewrite IH. Qed.

(** The decision [seed_roles] takes on a store whose calls succeed. *)
Lemma role_missing_healthy {A} (k : bool -> M A) (s : store) :
  faults s = [] ->
  (names ← Driver.list_collection_names;
   (if bool_decide ("role" ∉ names) then mret true
    else n ← Driver.count_documents "role"; mret (n =? 0)%nat) ≫= k) (Some s) =
  k (bool_decide (Driver.docs_of "role" s = [])) (Some s).
Proof.
  intros Hf. unfold mbind at 1, M_bind at 1.
  rewrite list_collection_names_healthy by done.
  unfold Driver.docs_of. case_bool_decide as Hdom.
  - apply not_elem_of_dom in Hdom. rewrite Hdom. reflexivity.
  - unfold mbind, M_bind. rewrite count_documents_healthy by done.
    unfold Driver.docs_of, mret, M_ret. f_equal.
    destruct (default [] (colls s !! "role")); by cbn.
Qed.

Lemma seed_roles_body_empty (s : store) :
  faults s = [] -> Driver.docs_of "role" s = [] ->
  seed_roles_body (Some s) =
    (Ok tt, Some (foldl (fun s d => insert_doc "role" d s) s roles)).
Proof.
  intros Hf He. unfold seed_roles_body.
  unfold mbind at 1, M_bind at 1, get_db at 1. cbn beta iota.
  rewrite role_missing_healthy by done.
  rewrite He. rewrite bool_decide_eq_true_2 by done.
  by apply for_each_create_healthy.
Qed.

(** With a Role document in the store, seeding inserts nothing, whatever
    the fate of its driver calls. *)
Lemma seed_roles_nonempty (s : store) :
  Driver.docs_of "role" s <> [] ->
  exists fs, seed_roles (Some s) = (Ok tt, Some (Store (colls s) (next_oid s) fs)).
Proof.
  intros Hne. unfold seed_roles, try_pass, seed_roles_body.
  unfold mbind at 1, M_bind at 1, get_db at 1.
  unfold mbind at 1, M_bind at 1. unfold mbind at 1, M_bind at 1.
  assert ("role" ∈ dom (colls s)) as Hdom.
  { apply elem_of_dom. unfold Driver.docs_of in Hne.
    destruct (colls s !! "role"); [eauto | done]. }
  destruct s as [cs n fs]. cbn [colls next_oid faults] in *.
  unfold Driver.list_collection_names, Driver.count_documents, Driver.call.
  cbn [faults colls next_oid].
  destruct fs as [|[] fs]; cbn [faults colls next_oid].
  - rewrite bool_decide_eq_false_2 by (by intros ?).
    unfold mbind, M_bind. cbn [faults colls next_oid].
    destruct (List.length _) eqn:Hl.
    + apply length_zero_iff_nil in Hl. done.
    + cbn. eauto.
  - eauto.
  - rewrite bool_decide_eq_false_2 by (by intros ?).
    unfold mbind, M_bind. cbn [faults colls next_oid].
    destruct fs as [|[] fs]; cbn [faults colls next_oid].
    + destruct (List.length _) eqn:Hl.
      * apply length_zero_iff_nil in Hl.
        unfold Driver.docs_of in *. cbn [colls] in *. done.
      * cbn. eauto.
    + eauto.
    + destruct (List.length _) eqn:Hl.
      * apply length_zero_iff_nil in Hl.
        unfold Driver.docs_of in *. cbn [colls] in *. done.
      * cbn. eauto.
Qed.

Lemma seed_roles_nonempty_healthy (s : store) :
  faults s = [] -> Driver.docs_of "role" s <> [] ->
  seed_roles (Some s) = (Ok tt, Some s).
Proof.
  intros Hf Hne. unfold seed_roles, try_pass, seed_roles_body.
  unfold mbind at 1, M_bind at 1, get_db at 1. cbn beta iota.
  rewrite role_missing_healthy by done.
  by rewrite bool_decide_eq_false_2 by done.
Qed.

(** C6. Start-up seeding never raises. On a store whose calls succeed and
    whose role collection is empty it inserts exactly the three fixed
    roles, in order, and running it again inserts nothing more; with any
    Role document present it inserts nothing, whatever happens to its
    driver calls; with no store configured it does nothing. *)
Theorem seed_roles_idempotent :
  (forall db, (seed_roles db).1 = Ok tt) /\
  (forall s, faults s = [] -> Driver.docs_of "role" s = [] ->
     exists s',
       seed_roles (Some s) = (Ok tt, Some s') /\
       Driver.docs_of "role" s' = with_ids (next_oid s) roles /\
       (fun d => d.2 !! "title") <$> Driver.docs_of "role" s' =
         [Some (VStr "Frontend Engineer"); Some (VStr "Backend Engineer");
          Some (VStr "Data Analyst")] /\
       (forall c, c <> "role" -> Driver.docs_of c s' = Driver.docs_of c s) /\
       seed_roles (Some s') = (Ok tt, Some s')) /\
  (forall s, Driver.docs_of "role" s <> [] ->
     exists fs,
       seed_roles (Some s) = (Ok tt, Some (Store (colls s) (next_oid s) fs))) /\
  seed_roles None = (Ok tt, None).
Proof.
  split; [|split; [|split]].
  - intros db. apply try_pass_ok.
  - intros s Hf He.
    exists (foldl (fun s d => insert_doc "role" d s) s roles).
    assert (Hdocs : Driver.docs_of "role"
              (foldl (fun s d => insert_doc "role" d s) s roles) =
            with_ids (next_oid s) roles).
    { by rewrite docs_of_foldl_insert, He. }
    split; [|split; [|split; [|split]]].
    + unfold seed_roles, try_pass. by rewrite seed_roles_body_empty.
    + exact Hdocs.
    + rewrite Hdocs. reflexivity.
    + intros c Hc. by apply docs_of_foldl_insert_ne.
    + apply seed_roles_nonempty_healthy.
      * by rewrite faults_foldl_insert.
      * rewrite Hdocs. discriminate.
  - apply seed_roles_nonempty.
  - reflexivity.
Qed.

Lemma seed_roles_idempotent_witness :
  (exists s',
     seed_roles empty_db = (Ok tt, Some s') /\
     Driver.docs_of "role" s' = with_ids 0 roles /\
     seed_roles (Some s') = (Ok tt, Some s')) /\
  (exists fs,
     seed_roles (Some seeded_store) =
       (Ok tt, Some (Store (colls seeded_store) (next_oid seeded_store) fs))).
Proof.
  split.
  - destruct (proj1 (proj2 seed_roles_idempotent) empty_store eq_refl eq_refl)
      as (s' & Hrun & Hdocs & _ & _ & Hagain).
    exists s'. repeat apply conj; assumption.
  - apply (proj1 (proj2 (proj2 seed_roles_idempotent)) seeded_store).
    discriminate.
Defined.

(** A driver call that fails in the middle of seeding is swallowed: the
    handler still returns, with the roles inserted so far. *)
Example seed_roles_swallows_fault :
  seed_roles_body (Some (Store ∅ 0 [false; false; true])) =
    (Raise StoreError, Some (Store {["role" := [(0%N, roles !!! 0%nat)]]} 1 [])) /\
  seed_roles (Some (Store ∅ 0 [false; false; true])) =
    (Ok tt, Some (Store {["role" := [(0%N, roles !!! 0%nat)]]} 1 [])).
Proof. split; vm_compute; reflexivity. Qed.

End Seeding.

(** ** Application intake and the admin listing *)

Section Applicants.

Lemma apply_healthy (a : ApplicantCreate.t) (s : store) :
  faults s = [] ->
  apply a (Some s) =
    (Ok (ObjectId.str (next_oid s), ["Frontend Engineer"; "Backend Engineer"]),
     Some (insert_doc "applicant" (ApplicantCreate.model_dump a) s)).
Proof.
  intros Hf. unfold apply, mbind, M_bind.
  by rewrite create_document_healthy.
Qed.

Lemma apply_all_healthy (applicants : list ApplicantCreate.t) (s : store) :
  faults s = [] ->
  apply_all applicants (Some s) =
    (Ok tt, Some (foldl (fun s d => insert_doc "applicant" d s) s
                    (ApplicantCreate.model_dump <$> applicants))).
Proof.
  unfold apply_all. revert s.
  induction applicants as [|a applicants IH]; intros s Hf; [done|].
  cbn [for_each fmap list_fmap foldl]. unfold mbind at 1, M_bind at 1.
  unfold mbind at 1, M_bind at 1. rewrite apply_healthy by done.
  unfold mret at 1, M_ret at 1. by apply IH.
Qed.

Lemma admin_applicants_configured (s : store) :
  admin_applicants (Some s) = (Raise NotImplementedError, Some s).
Proof. reflexivity. Qed.

(** C9, on the code. On a configured store the admin listing of
    applicants returns no list at all: [if not db:] truth-tests the
    handle, which raises before the store is asked for anything. Only
    with no store configured does the handler return, and then the empty
    list. After 60 applications the store holds 60 applicants and the
    listing raises. *)
Theorem admin_applicants_lists_nothing :
  (forall s, admin_applicants (Some s) = (Raise NotImplementedError, Some s)) /\
  admin_applicants None = (Ok [], None) /\
  (forall db l db', admin_applicants db = (Ok l, db') -> db = None /\ l = []) /\
  (forall s applicants, faults s = [] -> List.length applicants = 60%nat ->
     exists s',
       apply_all applicants (Some s) = (Ok tt, Some s') /\
       List.length (Driver.docs_of "applicant" s') =
         (List.length (Driver.docs_of "applicant" s) + 60)%nat /\
       admin_applicants (Some s') = (Raise NotImplementedError, Some s')) /\
  (exists s',
     apply_all (replicate 60 ann) empty_db = (Ok tt, Some s') /\
     List.length (Driver.docs_of "applicant" s') = 60%nat /\
     admin_applicants (Some s') = (Raise NotImplementedError, Some s')).
Proof.
  assert (Hsixty : forall s applicants,
    faults s = [] -> List.length applicants = 60%nat ->
    exists s',
      apply_all applicants (Some s) = (Ok tt, Some s') /\
      List.length (Driver.docs_of "applicant" s') =
        (List.length (Driver.docs_of "applicant" s) + 60)%nat /\
      admin_applicants (Some s') = (Raise NotImplementedError, Some s')).
  { intros s applicants Hf Hlen. eexists.
    split; [by apply apply_all_healthy|]. split; [|reflexivity].
    rewrite docs_of_foldl_insert, length_app. f_equal.
    rewrite <- Hlen, <- (length_fmap ApplicantCreate.model_dump applicants).
    generalize (next_oid s).
    induction (ApplicantCreate.model_dump <$> applicants) as [|d ds IH];
      intros n; cbn; [done | by rewrite IH]. }
  split; [apply admin_applicants_configured|]. split; [reflexivity|].
  split; [|split; [exact Hsixty|]].
  - intros [s|] l db' H; [by rewrite admin_applicants_configured in H|].
    change (admin_applicants None) with (Ok ([] : list pydoc), None : db_t) in H.
    by simplify_eq.
  - destruct (Hsixty empty_store (replicate 60 ann) eq_refl eq_refl)
      as (s' & Happly & Hlen & Hlist).
    exists s'. split; [exact Happly|]. split; [exact Hlen | exact Hlist].
Qed.

(** C1, on the code. [POST /api/apply] takes any string for an email:
    [ApplicantCreate] declares it a plain [str]. The body below, whose
    email has no "@", is validated, stored and answered with an id. *)
Lemma apply_accepts_malformed_email :
  contains "@" "not-an-email" = false /\
  post_apply bad_email_body empty_db =
    (Ok (ObjectId.str 0%N, ["Frontend Engineer"; "Backend Engineer"]),
     Some (Store
       {["applicant" :=
           [(0%N, <["name" := VStr "Ann"]>
                  (<["email" := VStr "not-an-email"]>
                  (<["role_id" := VNone]>
                  (<["resume_text" := VNone]> ∅))))]]} 1 [])).
Proof. split; vm_compute; reflexivity. Qed.

(** C7, on the code. The document [POST /api/apply] stores holds the four
    request fields and nothing else: there is no ["status"] entry. *)
Lemma apply_stores_no_status :
  post_apply ann_body empty_db =
    (Ok (ObjectId.str 0%N, ["Frontend Engineer"; "Backend Engineer"]),
     Some (Store {["applicant" := [(0%N, ApplicantCreate.model_dump ann)]]} 1 [])) /\
  ApplicantCreate.model_dump ann !! "status" = None /\
  dom (ApplicantCreate.model_dump ann) =
    {["name"; "email"; "role_id"; "resume_text"]}.
Proof. split; [|split]; vm_compute; reflexivity. Qed.

(** What does hold of [apply]: on a store whose calls succeed it stores
    the dumped request under a fresh id and answers that id with the two
    fixed titles, whatever the role id and resume text. *)
Lemma apply_fixed_suggestions (a : ApplicantCreate.t) (s : store) :
  faults s = [] ->
  exists aid s',
    apply a (Some s) = (Ok (aid, ["Frontend Engineer"; "Backend Engineer"]), Some s') /\
    aid = ObjectId.str (next_oid s) /\
    Driver.docs_of "applicant" s' =
      (Driver.docs_of "applicant" s ++
       [(next_oid s, ApplicantCreate.model_dump a)])%list /\
    ApplicantCreate.model_dump a !! "status" = None.
Proof.
  intros Hf. eexists _, _. split; [by apply apply_healthy|].
  split; [done|]. split; [apply docs_of_insert_doc|].
  unfold ApplicantCreate.model_dump. by simplify_map_eq.
Qed.

Lemma apply_fixed_suggestions_witness :
  exists aid s',
    apply ann empty_db = (Ok (aid, ["Frontend Engineer"; "Backend Engineer"]), Some s') /\
    aid = ObjectId.str 0%N.
Proof.
  destruct (apply_fixed_suggestions ann empty_store eq_refl)
    as (aid & s' & Happly & Haid & _).
  exists aid, s'. split; assumption.
Defined.

End Applicants.

(** * Further properties of the handlers *)

(** ** The reply by keywords *)

Section Keywords.

(** X15. The reply [chat] chooses, on messages of code points below
    U+0100. It is the frontend question when the lower-cased message
    holds "react", "frontend" or "ui"; otherwise the backend question
    when it holds "python", "backend" or "api"; otherwise the generic
    question. The message is stripped first, which changes none of this,
    and the search is for substrings, so "build" counts as "ui". This is
    the reply returned when no store is configured. *)
Theorem chat_reply_keywords_spelled_out (m : string) :
  let text := lower m in
  let frontend :=
    contains "react" text || contains "frontend" text || contains "ui" text in
  let backend :=
    contains "python" text || contains "backend" text || contains "api" text in
  chat_reply (strip m) =
    (if frontend
     then "Great frontend background. How do you manage state at scale?"
     else if backend
     then "Nice backend focus. How do you design resilient APIs?"
     else "Thanks! Can you share a challenging project you led?") /\
  (frontend = true <->
     substring_of "react" text \/ substring_of "frontend" text \/
     substring_of "ui" text) /\
  (backend = true <->
     substring_of "python" text \/ substring_of "backend" text \/
     substring_of "api" text) /\
  (forall i, chat (ChatTurn.Make i m) None = (Ok (chat_reply (strip m)), None)) /\
  chat (ChatTurn.Make "i1" "I love React and also Python") None =
    (Ok reply_frontend, None) /\
  chat (ChatTurn.Make "i1" "Mostly Python and Flask") None =
    (Ok reply_backend, None) /\
  chat (ChatTurn.Make "i1" "  REST API design  ") None =
    (Ok reply_backend, None) /\
  chat (ChatTurn.Make "i1" "I build APIs") None = (Ok reply_frontend, None) /\
  chat (ChatTurn.Make "i1" "I enjoy hiking") None = (Ok reply_generic, None).
Proof.
  intros text frontend backend. split; [|split; [|split; [|split]]].
  - rewrite chat_reply_strip. unfold any_in, frontend_keys, backend_keys.
    cbn [existsb]. by rewrite !orb_false_r, !orb_assoc.
  - unfold frontend. rewrite !orb_true_iff, !contains_substring. tauto.
  - unfold backend. rewrite !orb_true_iff, !contains_substring. tauto.
  - intros i. apply chat_no_db.
  - repeat apply conj; vm_compute; reflexivity.
Qed.

End Keywords.

(** ** Updating one document in place *)

Section UpdateFacts.

Lemma find_split (o : ObjectId.t) (ds : list (oid * gmap string value))
    (d : oid * gmap string value) :
  List.find (Driver.has_id o) ds = Some d ->
  exists pre post,
    ds = (pre ++ d :: post)%list /\
    Forall (fun x => Driver.has_id o x = false) pre /\
    Driver.has_id o d = true.
Proof.
  induction ds as [|x ds IH]; [done|]. cbn [List.find].
  destruct (Driver.has_id o x) eqn:Hx.
  - intros [= ->]. by exists [], ds.
  - intros H. destruct (IH H) as (pre & post & -> & Hpre & Hd).
    exists (x :: pre), post. split; [done|]. split; [by constructor | done].
Qed.

Lemma update_first_at (o : ObjectId.t)
    (f : gmap string value -> option (gmap string value))
    (pre post : list (oid * gmap string value)) (d : oid * gmap string value)
    (fs' : gmap string value) :
  Forall (fun x => Driver.has_id o x = false) pre ->
  Driver.has_id o d = true -> f d.2 = Some fs' ->
  Driver.update_first o f (pre ++ d :: post)%list =
    Some (pre ++ (d.1, fs') :: post)%list.
Proof.
  intros Hpre Hd Hf. induction Hpre as [|x pre Hx _ IH];
    cbn [app Driver.update_first].
  - by rewrite Hd, Hf.
  - by rewrite Hx, IH.
Qed.

Lemma colls_of_docs (c : string) (s : store) :
  Driver.docs_of c s <> [] -> colls s !! c = Some (Driver.docs_of c s).
Proof. unfold Driver.docs_of. by destruct (colls s !! c). Qed.

Lemma update_one_at (c : string) (o : ObjectId.t)
    (f : gmap string value -> option (gmap string value)) (s : store)
    (pre post : list (oid * gmap string value)) (d : oid * gmap string value)
    (fs' : gmap string value) :
  faults s = [] ->
  colls s !! c = Some (pre ++ d :: post)%list ->
  Forall (fun x => Driver.has_id o x = false) pre ->
  Driver.has_id o d = true -> f d.2 = Some fs' ->
  Driver.update_one c o f (Some s) =
    (Ok tt, Some (Store (<[c := (pre ++ (d.1, fs') :: post)%list]> (colls s))
                    (next_oid s) [])).
Proof.
  intros Hf Hc Hpre Hd Hfs. unfold Driver.update_one.
  rewrite call_healthy by done. rewrite Hc.
  rewrite (update_first_at _ _ _ _ _ fs') by done. by rewrite Hf.
Qed.

Lemma docs_of_store_insert (c : string) (ds : list (oid * gmap string value))
    (m : gmap string (list (oid * gmap string value))) (n : N) (fs : list bool) :
  Driver.docs_of c (Store (<[c := ds]> m) n fs) = ds.
Proof. unfold Driver.docs_of. cbn [colls]. by rewrite lookup_insert_eq. Qed.

Lemma docs_of_store_insert_ne (c c' : string)
    (ds : list (oid * gmap string value))
    (m : gmap string (list (oid * gmap string value))) (n : N) (fs : list bool) :
  c <> c' ->
  Driver.docs_of c' (Store (<[c := ds]> m) n fs) = default [] (m !! c').
Proof. intros H. unfold Driver.docs_of. cbn [colls]. by rewrite lookup_insert_ne. Qed.

(** The same key matches a document whatever its fields. *)
Lemma has_id_fields (o : ObjectId.t) (d : oid * gmap string value)
    (fs : gmap string value) :
  Driver.has_id o (d.1, fs) = Driver.has_id o d.
Proof. by destruct o. Qed.

(** The two appends on an interview found at a known place of its
    collection. *)
Lemma chat_appends_at (i u r : string) (s : store) (o : ObjectId.t)
    (pre post : list (oid * gmap string value)) (d : oid * gmap string value)
    (l : list value) :
  ObjectId.parse i = Some o ->
  faults s = [] ->
  Driver.docs_of "interview" s = (pre ++ d :: post)%list ->
  Forall (fun x => Driver.has_id o x = false) pre ->
  Driver.has_id o d = true ->
  d.2 !! "messages" = Some (VList l) ->
  chat_appends i u r (Some s) =
    (Ok tt,
     Some (Store
       (<["interview" :=
           (pre ++ (d.1, <["messages" :=
              VList (l ++ [message_doc "candidate" u;
                           message_doc "lily" r])%list]>
              d.2) :: post)%list]> (colls s))
       (next_oid s) [])).
Proof.
  intros Hid Hf Hdocs Hpre Hd Hm.
  assert (colls s !! "interview" = Some (pre ++ d :: post)%list) as Hc.
  { rewrite <- Hdocs. apply colls_of_docs. rewrite Hdocs. by destruct pre. }
  unfold chat_appends, mbind, M_bind.
  rewrite Hid. cbn [lift_option]. unfold mret, M_ret.
  erewrite update_one_at; [|done..|].
  2: { unfold Driver.push. rewrite Hm. reflexivity. }
  cbn beta iota.
  erewrite (update_one_at _ _ _ _ pre post (d.1, _)); [|done| |done| |].
  2: { cbn [colls]. apply lookup_insert_eq. }
  2: { by rewrite has_id_fields. }
  2: { unfold Driver.push. cbn [snd]. rewrite lookup_insert_eq. reflexivity. }
  cbn [colls next_oid fst]. by rewrite !insert_insert_eq, <- app_assoc.
Qed.

End UpdateFacts.

(** ** The interview session *)

Section Session.

(** X10. [chat] never appends: on a configured store the truth test of
    the handle raises before the first update, so the interview keeps the
    messages it had. The two update statements themselves, run on a store
    whose calls succeed and which holds the interview, append exactly the
    candidate message and then the reply they are given to that
    interview's messages and change nothing else: the documents before
    and after it in the collection, its other fields, the other
    collections and the id counter stay as they were. *)
Theorem chat_never_appends (turn : ChatTurn.t) (s : store) (q : ObjectId.t)
    (d : oid * gmap string value) (l : list value) (user_msg reply : string) :
  ObjectId.parse (ChatTurn.interview_id turn) = Some q ->
  faults s = [] ->
  List.find (Driver.has_id q) (Driver.docs_of "interview" s) = Some d ->
  d.2 !! "messages" = Some (VList l) ->
  chat turn (Some s) = (Raise NotImplementedError, Some s) /\
  exists pre post s',
    Driver.docs_of "interview" s = (pre ++ d :: post)%list /\
    chat_appends (ChatTurn.interview_id turn) user_msg reply (Some s) =
      (Ok tt, Some s') /\
    Driver.docs_of "interview" s' =
      (pre ++ (d.1, <["messages" :=
                 VList (l ++ [message_doc "candidate" user_msg;
                              message_doc "lily" reply])%list]>
               d.2) :: post)%list /\
    (forall c, c <> "interview" -> Driver.docs_of c s' = Driver.docs_of c s) /\
    next_oid s' = next_oid s.
Proof.
  intros Hid Hf Hfind Hm. split; [apply chat_configured|].
  destruct (find_split _ _ _ Hfind) as (pre & post & Hdocs & Hpre & Hd).
  exists pre, post. eexists. split; [done|].
  split; [by apply (chat_appends_at _ _ _ s q pre post d l)|].
  split; [apply docs_of_store_insert|].
  split; [|done]. intros c Hc. by apply docs_of_store_insert_ne.
Qed.

Lemma chat_never_appends_witness :
  chat (ChatTurn.Make (ObjectId.str 0%N) "Mostly backend work")
    (one_interview []) = (Raise NotImplementedError, one_interview []) /\
  exists pre post s',
    Driver.docs_of "interview" (one_interview_store []) =
      (pre ++ (0%N, interview_doc "a1" "r1") :: post)%list /\
    chat_appends (ObjectId.str 0%N) "Mostly backend work" reply_backend
      (one_interview []) = (Ok tt, Some s') /\
    Driver.docs_of "interview" s' =
      (pre ++ (0%N, <["messages" :=
                 VList [message_doc "lily" greeting;
                        message_doc "candidate" "Mostly backend work";
                        message_doc "lily" reply_backend]]>
               (interview_doc "a1" "r1")) :: post)%list.
Proof.
  destruct (chat_never_appends
    (ChatTurn.Make (ObjectId.str 0%N) "Mostly backend work")
    (one_interview_store []) (ObjectId.Id 0%N) (0%N, interview_doc "a1" "r1")
    [message_doc "lily" greeting] "Mostly backend work" reply_backend
    eq_refl eq_refl eq_refl eq_refl)
    as (Hchat & pre & post & s' & Hdocs & Happ & Hdocs' & _).
  split; [exact Hchat|].
  exists pre, post, s'. split; [exact Hdocs|]. split; [exact Happ|exact Hdocs'].
Defined.

(** X9. Starting an interview and then sending a turn under the returned
    id gets no reply: the turn raises at the truth test of the handle, and
    the interview, at the end of its collection, keeps the greeting as its
    only message. *)
Theorem start_interview_then_chat_gets_no_reply
    (applicant_id role_id message : string) (s : store) :
  faults s = [] ->
  exists iid s1,
    start_interview applicant_id role_id (Some s) = (Ok iid, Some s1) /\
    iid = ObjectId.str (next_oid s) /\
    chat (ChatTurn.Make iid message) (Some s1) =
      (Raise NotImplementedError, Some s1) /\
    Driver.docs_of "interview" s1 =
      (Driver.docs_of "interview" s ++
       [(next_oid s, interview_doc applicant_id role_id)])%list /\
    interview_doc applicant_id role_id !! "messages" =
      Some (VList [message_doc "lily" greeting]) /\
    (forall c, c <> "interview" -> Driver.docs_of c s1 = Driver.docs_of c s).
Proof.
  intros Hf.
  exists (ObjectId.str (next_oid s)),
    (insert_doc "interview" (interview_doc applicant_id role_id) s).
  split; [by apply create_document_healthy|]. split; [done|].
  split; [apply chat_configured|]. split; [apply docs_of_insert_doc|].
  split; [done|]. intros c Hc. by apply docs_of_insert_doc_ne.
Qed.

Lemma start_interview_then_chat_gets_no_reply_witness :
  exists iid s1,
    start_interview "a7" "r2" (Some seeded_store) = (Ok iid, Some s1) /\
    chat (ChatTurn.Make iid "  I design APIs ") (Some s1) =
      (Raise NotImplementedError, Some s1) /\
    Driver.docs_of "interview" s1 = [(3%N, interview_doc "a7" "r2")].
Proof.
  destruct (start_interview_then_chat_gets_no_reply "a7" "r2" "  I design APIs "
              seeded_store eq_refl)
    as (iid & s1 & Hstart & _ & Hchat & Hdocs & _).
  exists iid, s1. split; [exact Hstart|]. split; [exact Hchat|exact Hdocs].
Defined.

(** X4. [start_coding] never sets the mode: on a configured store the
    truth test of the handle raises before the update, whatever the id
    and whatever the store holds, and nothing is written; with no store
    it answers the fixed starter code and language. Whatever it is given
    it leaves the store as it found it. The starter it hands out,
    submitted unchanged to [run_code], gets the success message. *)
Theorem start_coding_never_sets_the_mode (interview_id : string) :
  start_coding interview_id None = (Ok (starter, "javascript"), None) /\
  (forall s,
     start_coding interview_id (Some s) = (Raise NotImplementedError, Some s)) /\
  (forall db, (start_coding interview_id db).2 = db) /\
  (forall db r db', start_coding interview_id db = (Ok r, db') ->
     db = None /\ r = (starter, "javascript")) /\
  (forall i lang inp db,
     run_code (CodingRunRequest.Make i lang starter inp) db = (Ok out_success, db)).
Proof.
  split; [reflexivity|]. split; [reflexivity|].
  split; [by intros [s|]|]. split; [|reflexivity].
  intros [s|] r db' H.
  - change (start_coding interview_id (Some s))
      with (Raise NotImplementedError : result (string * string), Some s) in H.
    by simplify_eq.
  - change (start_coding interview_id None)
      with (Ok (starter, "javascript"), None : db_t) in H.
    by simplify_eq.
Qed.

End Session.

(** ** Completing an interview *)

Section Complete.

Lemma complete_healthy (interview_id : string) (s : store) :
  faults s = [] ->
  complete interview_id (Some s) =
    (Ok (dict_with "result_id" (VStr (ObjectId.str (next_oid s))) result_scores),
     Some (insert_doc "result" (result_doc interview_id) s)).
Proof.
  intros Hf. unfold complete, mbind, M_bind.
  by rewrite create_document_healthy.
Qed.

Lemma complete_all_healthy (interview_ids : list string) (s : store) :
  faults s = [] ->
  complete_all interview_ids (Some s) =
    (Ok tt, Some (foldl (fun s d => insert_doc "result" d s) s
                    (result_doc <$> interview_ids))).
Proof.
  unfold complete_all. revert s.
  induction interview_ids as [|i ids IH]; intros s Hf; [done|].
  cbn [for_each fmap list_fmap foldl]. unfold mbind at 1, M_bind at 1.
  unfold mbind at 1, M_bind at 1. rewrite complete_healthy by done.
  unfold mret at 1, M_ret at 1. by apply IH.
Qed.

Lemma dict_with_lookup (k : string) (v : value) (d : gmap string value) :
  d !! k = None ->
  dict_with k v d !! k = Some v /\
  forall k', k' <> k -> dict_with k v d !! k' = d !! k'.
Proof.
  intros Hk. unfold dict_with. split.
  - rewrite lookup_union_r by done. apply lookup_singleton_eq.
  - intros k' Hne. rewrite lookup_union, lookup_singleton_ne by done.
    by destruct (d !! k').
Qed.

(** X5. [complete] takes any interview id, malformed or unknown, and never
    looks it up: on a store whose calls succeed each call appends one
    Result document under a fresh id, holding that id string and the fixed
    scores, each score within 0..100; it answers the same scores with the
    new result id and leaves every other collection as it was. Completing
    one interview several times stores one Result per call. *)
Theorem complete_stores_a_result_per_call :
  (forall interview_id s, faults s = [] ->
     exists answer s',
       complete interview_id (Some s) = (Ok answer, Some s') /\
       answer !! "result_id" = Some (VStr (ObjectId.str (next_oid s))) /\
       (forall k, k <> "result_id" -> answer !! k = result_scores !! k) /\
       Driver.docs_of "result" s' =
         (Driver.docs_of "result" s ++ [(next_oid s, result_doc interview_id)])%list /\
       (forall c, c <> "result" -> Driver.docs_of c s' = Driver.docs_of c s)) /\
  (forall interview_id,
     result_doc interview_id !! "interview_id" = Some (VStr interview_id) /\
     forall k, k <> "interview_id" ->
       result_doc interview_id !! k = result_scores !! k) /\
  (forall k, k ∈ ["communication"; "problem_solving"; "technical"] ->
     exists z, result_scores !! k = Some (VInt z) /\ (0 <= z <= 100)%Z) /\
  (forall interview_ids s, faults s = [] ->
     exists s',
       complete_all interview_ids (Some s) = (Ok tt, Some s') /\
       Driver.docs_of "result" s' =
         (Driver.docs_of "result" s ++
          with_ids (next_oid s) (result_doc <$> interview_ids))%list /\
       (forall c, c <> "result" -> Driver.docs_of c s' = Driver.docs_of c s)).
Proof.
  split; [|split; [|split]].
  - intros i s Hf. eexists _, _. split; [by apply complete_healthy|].
    destruct (dict_with_lookup "result_id"
      (VStr (ObjectId.str (next_oid s))) result_scores eq_refl) as [H1 H2].
    split; [done|]. split; [done|]. split; [apply docs_of_insert_doc|].
    intros c Hc. by apply docs_of_insert_doc_ne.
  - intros i. by apply dict_with_lookup.
  - intros k Hk. set_unfold in Hk.
    destruct Hk as [->|[->|[->|[]]]]; eexists; (split; [reflexivity | lia]).
  - intros ids s Hf. eexists. split; [by apply complete_all_healthy|].
    split; [apply docs_of_foldl_insert|].
    intros c Hc. by apply docs_of_foldl_insert_ne.
Qed.

Lemma complete_stores_a_result_per_call_witness :
  exists s',
    complete_all ["not-an-id"; "not-an-id"] (one_interview []) = (Ok tt, Some s') /\
    Driver.docs_of "result" s' =
      [(1%N, result_doc "not-an-id"); (2%N, result_doc "not-an-id")] /\
    Driver.docs_of "interview" s' = Driver.docs_of "interview" (one_interview_store []).
Proof.
  destruct (proj2 (proj2 (proj2 complete_stores_a_result_per_call))
              ["not-an-id"; "not-an-id"] (one_interview_store []) eq_refl)
    as (s' & Hrun & Hdocs & Hother).
  exists s'. split; [exact Hrun|]. split; [exact Hdocs|].
  apply Hother. discriminate.
Defined.

End Complete.

(** ** The admin listing of interviews *)

Section Interviews.

(** X8. The admin listing of interviews lists nothing: on a configured
    store [if not db:] raises before the store is asked, whatever it
    holds and whether or not its calls would succeed, and with no store
    the answer is the empty list. An interview just started is therefore
    never listed. *)
Theorem admin_interviews_lists_nothing :
  (forall s, admin_interviews (Some s) = (Raise NotImplementedError, Some s)) /\
  admin_interviews None = (Ok [], None) /\
  (forall db l db', admin_interviews db = (Ok l, db') -> db = None /\ l = []) /\
  (forall applicant_id role_id s, faults s = [] ->
     exists iid s',
       start_interview applicant_id role_id (Some s) = (Ok iid, Some s') /\
       last (Driver.docs_of "interview" s') =
         Some (next_oid s, interview_doc applicant_id role_id) /\
       admin_interviews (Some s') = (Raise NotImplementedError, Some s')).
Proof.
  split; [reflexivity|]. split; [reflexivity|]. split.
  - intros [s|] l db' H.
    + change (admin_interviews (Some s))
        with (Raise NotImplementedError : result (list pydoc), Some s) in H.
      by simplify_eq.
    + change (admin_interviews None) with (Ok ([] : list pydoc), None : db_t) in H.
      by simplify_eq.
  - intros a r s Hf. eexists _, _.
    split; [by apply create_document_healthy|]. split; [|reflexivity].
    by rewrite docs_of_insert_doc, last_snoc.
Qed.

End Interviews.

(** ** Resume upload and diagnostics *)

Section Upload.

Lemma length_append (a b : string) :
  String.length (a ++ b) = (String.length a + String.length b)%nat.
Proof.
  induction a as [|c a IH]; [done|].
  rewrite append_cons. cbn [String.length]. by rewrite IH.
Qed.

Lemma append_cancel_r (a b q : string) : a ++ q = b ++ q -> a = b.
Proof.
  revert b. induction a as [|c a IH]; intros [|c' b] H.
  - done.
  - apply (f_equal String.length) in H. rewrite !length_append in H.
    cbn [String.length] in H. lia.
  - apply (f_equal String.length) in H. rewrite !length_append in H.
    cbn [String.length] in H. lia.
  - rewrite !append_cons in H. injection H as -> H. f_equal. by apply IH.
Qed.

(** X6. [upload_resume] reads the upload without looking inside: the text
    it answers tells the byte count and nothing else, so two uploads get
    the same text exactly when they have the same size, and no store is
    read or written. *)
Theorem upload_resume_tells_only_the_size :
  (forall c1 c2 db1 db2,
     (upload_resume c1 db1).1 = (upload_resume c2 db2).1 <->
     List.length c1 = List.length c2) /\
  (forall c db, exists text, upload_resume c db = (Ok text, db)).
Proof.
  split.
  - intros c1 c2 db1 db2. unfold upload_resume, mret, M_ret. cbn [fst].
    split.
    + intros [= H]. apply (inj (String.app _)) in H.
      apply append_cancel_r in H. by apply (inj pretty) in H.
    + by intros ->.
  - intros c db. eexists. reflexivity.
Qed.

Lemma upload_resume_tells_only_the_size_witness :
  (upload_resume [Byte.x25; Byte.x50; Byte.x44; Byte.x46] None).1 =
  (upload_resume [Byte.x00; Byte.x01; Byte.x02; Byte.x03] empty_db).1.
Proof.
  apply (proj1 upload_resume_tells_only_the_size
    [Byte.x25; Byte.x50; Byte.x44; Byte.x46]
    [Byte.x00; Byte.x01; Byte.x02; Byte.x03] None empty_db).
  reflexivity.
Defined.

Example upload_resume_four_bytes :
  upload_resume [Byte.x25; Byte.x50; Byte.x44; Byte.x46] None =
    (Ok "Extracted 4 bytes of resume text. Skills: React, Python, SQL", None).
Proof. vm_compute. reflexivity. Qed.

End Upload.

Section Diagnostics.

(** A read-only driver call leaves the stored data alone and either
    raises [StoreError] or answers from that data. *)
Lemma call_read {A} (g : store -> A) (s : store) :
  exists s', same_data s s' /\
    (Driver.call (fun s => (Ok (g s), s)) (Some s) = (Raise StoreError, Some s') \/
     Driver.call (fun s => (Ok (g s), s)) (Some s) = (Ok (g s'), Some s')).
Proof.
  unfold Driver.call, same_data. destruct (faults s) as [|[] fs] eqn:Hf.
  - exists s. eauto.
  - eexists. split; [|left; reflexivity]. done.
  - eexists. split; [|right; reflexivity]. done.
Qed.

Lemma length_str_prefix (n : nat) (s : string) :
  (String.length (str_prefix n s) <= n)%nat.
Proof.
  revert s. induction n as [|n IH]; intros [|c s]; cbn; try lia.
  specialize (IH s). lia.
Qed.

Lemma str_prefix_short (n : nat) (s : string) :
  (String.length s <= n)%nat -> str_prefix n s = s.
Proof.
  revert s. induction n as [|n IH]; intros [|c s]; cbn; try done; try lia.
  intros H. f_equal. apply IH. lia.
Qed.

Lemma env_set_iff (env : gmap string string) (k : string) :
  env_set env k = true <-> exists c v, env !! k = Some (String c v).
Proof.
  unfold env_set. destruct (env !! k) as [[|c v]|]; split;
    try done; try (by intros (c' & v' & H)); eauto.
Qed.

(** X7. [test_database] never raises and never changes stored data. With
    no store it reports the database as not available; when the listing
    of collections succeeds it reports Connected with the collection
    names; when the listing raises it reports the warning mark followed
    by at most the first 60 characters of the exception text, with no
    collections. A variable counts as set only when it is present and not
    the empty string. *)
Theorem test_database_never_raises
    (env : gmap string string) (str_exc : exn -> string) :
  (forall db, exists resp db',
     test_database env str_exc db = (Ok resp, db') /\
     Diagnostics.backend resp = Diagnostics.running /\
     (Diagnostics.database_url resp = Diagnostics.is_set <->
        exists c v, env !! "DATABASE_URL" = Some (String c v)) /\
     (Diagnostics.database_name resp = Diagnostics.is_set <->
        exists c v, env !! "DATABASE_NAME" = Some (String c v)) /\
     match db with
     | None =>
         db' = None /\
         Diagnostics.database resp = Diagnostics.not_available /\
         Diagnostics.collections resp = ∅
     | Some s =>
         exists s', db' = Some s' /\ same_data s s' /\
           ((Diagnostics.database resp = Diagnostics.connected /\
             Diagnostics.collections resp = dom (colls s)) \/
            (exists e msg,
               Diagnostics.database resp = Diagnostics.warning ++ msg /\
               msg = str_prefix 60 (str_exc e) /\
               (String.length msg <= 60)%nat /\
               ((String.length (str_exc e) <= 60)%nat -> msg = str_exc e) /\
               Diagnostics.collections resp = ∅))
     end) /\
  (forall s, faults s = [] ->
     exists resp, test_database env str_exc (Some s) = (Ok resp, Some s) /\
       Diagnostics.database resp = Diagnostics.connected /\
       Diagnostics.collections resp = dom (colls s)) /\
  (forall s fs, faults s = true :: fs ->
     exists resp s', test_database env str_exc (Some s) = (Ok resp, Some s') /\
       Diagnostics.database resp =
         Diagnostics.warning ++ str_prefix 60 (str_exc StoreError) /\
       Diagnostics.collections resp = ∅).
Proof.
  assert (Hflag : forall k,
    (if env_set env k then Diagnostics.is_set else Diagnostics.not_set) =
      Diagnostics.is_set <-> exists c v, env !! k = Some (String c v)).
  { intros k. rewrite <- env_set_iff. by destruct (env_set env k). }
  split; [|split].
  - intros [s|]; unfold test_database.
    + unfold Driver.list_collection_names.
      destruct (call_read (fun s => dom (colls s)) s) as (s' & Hsame & [H|H]);
        rewrite H; eexists _, _; (split; [reflexivity|]);
        cbn [Diagnostics.backend Diagnostics.database Diagnostics.database_url
             Diagnostics.database_name Diagnostics.collections];
        (split; [done|]); (split; [apply Hflag|]); (split; [apply Hflag|]);
        exists s'; (split; [done|]); (split; [done|]).
      * right. eexists _, _. split; [reflexivity|]. split; [reflexivity|].
        split; [apply length_str_prefix|]. split; [apply str_prefix_short|done].
      * left. split; [done|]. destruct Hsame as [-> _]. done.
    + eexists _, _. split; [reflexivity|].
      cbn [Diagnostics.backend Diagnostics.database Diagnostics.database_url
           Diagnostics.database_name Diagnostics.collections].
      split; [done|]. split; [apply Hflag|]. split; [apply Hflag|]. done.
  - intros s Hf. unfold test_database. rewrite list_collection_names_healthy by done.
    eexists. split; [reflexivity|]. done.
  - intros s fs Hf. unfold test_database, Driver.list_collection_names.
    rewrite (call_fault _ _ fs) by done. eexists _, _.
    split; [reflexivity|]. done.
Qed.

Lemma test_database_never_raises_witness :
  (exists resp,
     test_database {["DATABASE_URL" := "mongodb://db"; "DATABASE_NAME" := ""]}
       (fun _ => "unused") (Some seeded_store) = (Ok resp, Some seeded_store) /\
     Diagnostics.database resp = Diagnostics.connected /\
     Diagnostics.collections resp = dom (colls seeded_store)) /\
  (exists resp s',
     test_database ∅ (fun _ => "connection refused")
       (Some (one_interview_store [true])) = (Ok resp, Some s') /\
     Diagnostics.database resp =
       Diagnostics.warning ++ str_prefix 60 "connection refused" /\
     Diagnostics.collections resp = ∅).
Proof.
  split.
  - apply (proj1 (proj2 (test_database_never_raises
      {["DATABASE_URL" := "mongodb://db"; "DATABASE_NAME" := ""]}
      (fun _ => "unused"))) seeded_store). reflexivity.
  - apply (proj2 (proj2 (test_database_never_raises ∅
      (fun _ => "connection refused"))) (one_interview_store [true]) []).
    reflexivity.
Defined.

End Diagnostics.

(** ** Seeding when driver calls fail *)

Section SeedingFaults.

Lemma docs_of_same_data (c : string) (s s' : store) :
  same_data s s' -> Driver.docs_of c s' = Driver.docs_of c s.
Proof. intros [H _]. unfold Driver.docs_of. by rewrite H. Qed.

Lemma for_each_cons_ok {A B} (h : A -> M B) (x : A) (xs : list A)
    (db db' : db_t) (b : B) :
  h x db = (Ok b, db') ->
  for_each (x :: xs) (fun a => h a ≫= fun _ => mret tt) db =
    for_each xs (fun a => h a ≫= fun _ => mret tt) db'.
Proof. intros H. cbn [for_each]. unfold mbind, M_bind. by rewrite H. Qed.

Lemma for_each_cons_raise {A B} (h : A -> M B) (x : A) (xs : list A)
    (db db' : db_t) (e : exn) :
  h x db = (Raise e, db') ->
  for_each (x :: xs) (fun a => h a ≫= fun _ => mret tt) db = (Raise e, db').
Proof. intros H. cbn [for_each]. unfold mbind, M_bind. by rewrite H. Qed.

(** [create_document] either fails before touching the data or inserts. *)
Lemma create_document_cases (c : string) (d : gmap string value) (s : store) :
  exists s0, same_data s s0 /\
    (create_document c d (Some s) = (Raise StoreError, Some s0) \/
     create_document c d (Some s) =
       (Ok (ObjectId.str (next_oid s0)), Some (insert_doc c d s0))).
Proof.
  unfold create_document, mbind, M_bind, Driver.insert_one, Driver.call, same_data.
  destruct (faults s) as [|[] fs] eqn:Hf.
  - exists s. split; [done|]. right. unfold insert_doc. by rewrite Hf.
  - exists (Store (colls s) (next_oid s) fs). split; [done|]. by left.
  - exists (Store (colls s) (next_oid s) fs). split; [done|]. by right.
Qed.

(** A run of inserts that may be cut short by a failing call stores a
    prefix of the documents, under consecutive ids. *)
Lemma for_each_create_prefix (c : string) (ds : list (gmap string value))
    (s : store) :
  exists k r s',
    (k <= List.length ds)%nat /\
    for_each ds (fun d => create_document c d ≫= fun _ => mret tt) (Some s) =
      (r, Some s') /\
    Driver.docs_of c s' =
      (Driver.docs_of c s ++ with_ids (next_oid s) (take k ds))%list /\
    (forall c', c' <> c -> Driver.docs_of c' s' = Driver.docs_of c' s) /\
    next_oid s' = (next_oid s + N.of_nat k)%N.
Proof.
  revert s. induction ds as [|d ds IH]; intros s.
  - exists 0%nat, (Ok tt), s. cbn. rewrite app_nil_r.
    repeat apply conj; try done; lia.
  - destruct (create_document_cases c d s) as (s0 & Hsame & [H|H]).
    + exists 0%nat, (Raise StoreError), s0. split; [lia|].
      split; [by apply for_each_cons_raise|].
      cbn [take with_ids]. rewrite app_nil_r.
      split; [by apply docs_of_same_data|].
      split; [intros c' _; by apply docs_of_same_data|].
      destruct Hsame as [_ ->]. lia.
    + destruct (IH (insert_doc c d s0))
        as (k & r & s' & Hk & Hrun & Hdocs & Hoth & Hn).
      exists (S k), r, s'. split; [cbn; lia|].
      split; [by rewrite (for_each_cons_ok _ _ _ _ _ _ H)|].
      pose proof (docs_of_same_data c _ _ Hsame) as Hc.
      destruct Hsame as [Hcolls Hnext].
      split.
      { rewrite Hdocs, docs_of_insert_doc, Hc. cbn [take with_ids insert_doc next_oid].
        by rewrite <- app_assoc, Hnext. }
      split.
      { intros c' Hc'. rewrite Hoth, docs_of_insert_doc_ne by done.
        unfold Driver.docs_of. by rewrite Hcolls. }
      rewrite Hn. cbn [insert_doc next_oid]. lia.
Qed.

(** X11. Whatever driver calls fail, seeding a store without roles
    returns normally and leaves the role collection holding the first k
    of the three fixed roles, in order and under consecutive fresh ids,
    for some k from 0 to 3; no other collection changes. Once k is at
    least 1 a later start-up inserts nothing, so a seeding cut short is
    never completed. *)
Theorem seed_roles_stores_a_prefix (s : store) :
  Driver.docs_of "role" s = [] ->
  exists k s',
    (k <= 3)%nat /\
    seed_roles (Some s) = (Ok tt, Some s') /\
    Driver.docs_of "role" s' = with_ids (next_oid s) (take k roles) /\
    (forall c, c <> "role" -> Driver.docs_of c s' = Driver.docs_of c s) /\
    ((1 <= k)%nat -> exists fs,
       seed_roles (Some s') = (Ok tt, Some (Store (colls s') (next_oid s') fs))).
Proof.
  intros He.
  assert (Hstop : forall s', same_data s s' ->
    exists k s'', (k <= 3)%nat /\ s'' = s' /\
      Driver.docs_of "role" s'' = with_ids (next_oid s) (take k roles) /\
      (forall c, c <> "role" -> Driver.docs_of c s'' = Driver.docs_of c s) /\
      ((1 <= k)%nat -> exists fs,
         seed_roles (Some s'') = (Ok tt, Some (Store (colls s'') (next_oid s'') fs)))).
  { intros s' Hsame. exists 0%nat, s'. split; [lia|]. split; [done|].
    split; [by rewrite (docs_of_same_data _ s s')|].
    split; [intros c _; by apply docs_of_same_data | lia]. }
  assert (Hgo : forall s', same_data s s' ->
    exists k r s'', (k <= 3)%nat /\
      for_each roles (fun r => create_document "role" r ≫= fun _ => mret tt)
        (Some s') = (r, Some s'') /\
      Driver.docs_of "role" s'' = with_ids (next_oid s) (take k roles) /\
      (forall c, c <> "role" -> Driver.docs_of c s'' = Driver.docs_of c s) /\
      ((1 <= k)%nat -> exists fs,
         seed_roles (Some s'') = (Ok tt, Some (Store (colls s'') (next_oid s'') fs)))).
  { intros s' Hsame.
    destruct (for_each_create_prefix "role" roles s')
      as (k & r & s'' & Hk & Hrun & Hdocs & Hoth & _).
    rewrite (docs_of_same_data _ s s') in Hdocs by done. rewrite He in Hdocs.
    destruct Hsame as [Hc Hn]. rewrite Hn in Hdocs. cbn [app] in Hdocs.
    exists k, r, s''. split; [exact Hk|]. split; [exact Hrun|].
    split; [exact Hdocs|]. split.
    - intros c Hne. rewrite Hoth by done. unfold Driver.docs_of. by rewrite Hc.
    - intros Hk1. apply seed_roles_nonempty. rewrite Hdocs.
      destruct k; [lia|]. discriminate. }
  unfold seed_roles, try_pass, seed_roles_body.
  unfold mbind at 1, M_bind at 1, get_db at 1. cbn beta iota.
  unfold mbind at 1, M_bind at 1. unfold Driver.list_collection_names.
  destruct (call_read (fun s => dom (colls s)) s) as (s1 & Hs1 & [H1|H1]);
    rewrite H1.
  - destruct (Hstop s1 Hs1) as (k & s'' & Hk & -> & Hrest). by exists k, s1.
  - unfold mbind at 1, M_bind at 1.
    case_bool_decide as Hdom.
    + unfold mret at 1, M_ret at 1.
      destruct (Hgo s1 Hs1) as (k & r & s'' & Hk & Hrun & Hrest).
      rewrite Hrun. exists k, s''. split; [exact Hk|]. split; [by destruct r as [[]|]|].
      exact Hrest.
    + unfold mbind at 1, M_bind at 1. unfold Driver.count_documents.
      destruct (call_read (fun s => List.length (Driver.docs_of "role" s)) s1)
        as (s2 & Hs2 & [H2|H2]); rewrite H2.
      * assert (same_data s s2) as Hs by
          (destruct Hs1 as [? ?], Hs2 as [? ?]; split; congruence).
        destruct (Hstop s2 Hs) as (k & s'' & Hk & -> & Hrest). by exists k, s2.
      * assert (same_data s s2) as Hs by
          (destruct Hs1 as [? ?], Hs2 as [? ?]; split; congruence).
        rewrite (docs_of_same_data _ s s2), He by done.
        unfold mret at 1, M_ret at 1. cbn [List.length Nat.eqb].
        destruct (Hgo s2 Hs) as (k & r & s'' & Hk & Hrun & Hrest).
        rewrite Hrun. exists k, s''. split; [exact Hk|].
        split; [by destruct r as [[]|]|]. exact Hrest.
Qed.

Lemma seed_roles_stores_a_prefix_witness :
  exists k s',
    (k <= 3)%nat /\
    seed_roles (Some flaky_store) = (Ok tt, Some s') /\
    Driver.docs_of "role" s' = with_ids 0 (take k roles).
Proof.
  destruct (seed_roles_stores_a_prefix flaky_store eq_refl) as (k & s' & Hk & Hrun & Hdocs & _).
  exists k, s'. split; [exact Hk|]. split; [exact Hrun|exact Hdocs].
Defined.

End SeedingFaults.

(** ** Listing roles *)

Section ListRoles.

Lemma expose_ids_stored (ds : list (oid * gmap string value)) (db : db_t) :
  expose_ids (Driver.to_pydoc <$> ds) db = (Ok (exposed <$> ds), db).
Proof.
  induction ds as [|d ds IH]; [done|].
  cbn [fmap list_fmap expose_ids]. unfold mbind at 1, M_bind at 1.
  change (expose_id (Driver.to_pydoc d) db) with (Ok (exposed d), db).
  cbn beta iota. unfold mbind, M_bind. by rewrite IH.
Qed.

Lemma expose_ids_missing_id (items : list pydoc) (db : db_t) :
  (exists it, it ∈ items /\ doc_id it = None) ->
  expose_ids items db = (Raise KeyError, db).
Proof.
  induction items as [|x items IH]; intros (it & Hin & Hid).
  - by apply elem_of_nil in Hin.
  - cbn [expose_ids]. unfold mbind at 1, M_bind at 1. unfold expose_id at 1.
    unfold mbind at 1, M_bind at 1.
    destruct (doc_id x) as [o|] eqn:Hx; cbn [lift_option].
    + unfold mret at 1, M_ret at 1. unfold mret at 1, M_ret at 1.
      unfold mbind at 1, M_bind at 1. rewrite IH; [done|].
      apply elem_of_cons in Hin as [->|Hin]; [congruence|]. eauto.
    + reflexivity.
Qed.

(** X12. [list_roles] never asks [get_documents] for anything, whatever
    that helper is: with no store it answers the empty list, and on a
    configured store the truth test in [if db] raises first. The loop
    behind it, were it handed stored documents, would move each id under
    ["id"], keeping number and order, and would raise [KeyError] on a
    document without [_id]. *)
Theorem list_roles_lists_nothing (get_documents : string -> M (list pydoc)) :
  list_roles get_documents None = (Ok [], None) /\
  (forall s,
     list_roles get_documents (Some s) = (Raise NotImplementedError, Some s)) /\
  (forall db l db', list_roles get_documents db = (Ok l, db') ->
     db = None /\ l = []) /\
  (forall ds db, expose_ids (Driver.to_pydoc <$> ds) db = (Ok (exposed <$> ds), db)) /\
  (forall items db, (exists it, it ∈ items /\ doc_id it = None) ->
     expose_ids items db = (Raise KeyError, db)).
Proof.
  split; [reflexivity|]. split; [reflexivity|].
  split; [|split; [apply expose_ids_stored | apply expose_ids_missing_id]].
  intros [s|] l db' H.
  - change (list_roles get_documents (Some s))
      with (Raise NotImplementedError : result (list pydoc), Some s) in H.
    by simplify_eq.
  - change (list_roles get_documents None)
      with (Ok ([] : list pydoc), None : db_t) in H.
    by simplify_eq.
Qed.

End ListRoles.

(** ** What the request models accept *)

Section Validation.

Lemma required_str_cases (body : gmap string value) (k : string) :
  (json_str (body !! k) /\ exists s, Field.required_str body k = Ok s) \/
  (~ json_str (body !! k) /\ Field.required_str body k = Raise ValidationError).
Proof.
  unfold Field.required_str, json_str.
  destruct (body !! k) as [[]|]; try (right; split; [by intros [? ?] | done]).
  left. eauto.
Qed.

Lemma optional_str_cases (body : gmap string value) (k : string) :
  (json_opt_str (body !! k) /\ exists o, Field.optional_str None body k = Ok o) \/
  (~ json_opt_str (body !! k) /\
   Field.optional_str None body k = Raise ValidationError).
Proof.
  unfold Field.optional_str, json_opt_str, json_str.
  destruct (body !! k) as [[]|];
    try (right; split; [by intros [?|[?|[? ?]]] | done]); left; eauto 6.
Qed.

Lemma strs_cases (l : list value) :
  (exists ss, l = VStr <$> ss /\ Field.strs l = Ok ss) \/
  ((forall ss : list string, l <> VStr <$> ss) /\
   Field.strs l = Raise ValidationError).
Proof.
  induction l as [|v l IH].
  - left. by exists [].
  - cbn [Field.strs].
    destruct v as [| | |s| |];
      try (right; split; [by intros [|? ?] | done]).
    destruct IH as [(ss & -> & ->)|[Hno ->]].
    + left. by exists (s :: ss).
    + right. split; [|done]. intros [|s' ss] H; [done|].
      cbn in H. injection H as _ H. by apply (Hno ss).
Qed.

Lemma str_list_cases (body : gmap string value) (k : string) :
  (json_str_list (body !! k) /\ exists ss, Field.str_list body k = Ok ss) \/
  (~ json_str_list (body !! k) /\ Field.str_list body k = Raise ValidationError).
Proof.
  unfold Field.str_list, json_str_list.
  destruct (body !! k) as [[| | | |l|]|];
    try (right; split; [by intros [?|[? ?]] | done]).
  - destruct (strs_cases l) as [(ss & -> & ->)|[Hno ->]].
    + left. split; [right|]; eauto.
    + right. split; [|done]. intros [?|[ss H]]; [done|].
      injection H as H. by apply (Hno ss).
  - left. split; [by left | by exists []].
Qed.

Lemma role_validate_cases (body : gmap string value) :
  (role_body_ok body /\ exists role, RoleCreate.validate body = Ok role) \/
  (~ role_body_ok body /\ RoleCreate.validate body = Raise ValidationError).
Proof.
  unfold role_body_ok, RoleCreate.validate.
  destruct (required_str_cases body "title") as [[H1 [ti ->]]|[H1 ->]];
    [|right; split; [tauto | done]].
  destruct (optional_str_cases body "department") as [[H2 [de ->]]|[H2 ->]];
    [|right; split; [tauto | done]].
  destruct (optional_str_cases body "location") as [[H3 [lo ->]]|[H3 ->]];
    [|right; split; [tauto | done]].
  destruct (optional_str_cases body "level") as [[H4 [le ->]]|[H4 ->]];
    [|right; split; [tauto | done]].
  destruct (required_str_cases body "description") as [[H5 [ds ->]]|[H5 ->]];
    [|right; split; [tauto | done]].
  destruct (str_list_cases body "requirements") as [[H6 [rq ->]]|[H6 ->]];
    [|right; split; [tauto | done]].
  left. split; [tauto|]. eexists. reflexivity.
Qed.

Lemma applicant_validate_cases (body : gmap string value) :
  (applicant_body_ok body /\ exists a, ApplicantCreate.validate body = Ok a) \/
  (~ applicant_body_ok body /\
   ApplicantCreate.validate body = Raise ValidationError).
Proof.
  unfold applicant_body_ok, ApplicantCreate.validate.
  destruct (required_str_cases body "name") as [[H1 [na ->]]|[H1 ->]];
    [|right; split; [tauto | done]].
  destruct (required_str_cases body "email") as [[H2 [em ->]]|[H2 ->]];
    [|right; split; [tauto | done]].
  destruct (optional_str_cases body "role_id") as [[H3 [ro ->]]|[H3 ->]];
    [|right; split; [tauto | done]].
  destruct (optional_str_cases body "resume_text") as [[H4 [re ->]]|[H4 ->]];
    [|right; split; [tauto | done]].
  left. split; [tauto|]. eexists. reflexivity.
Qed.

(** X2. [POST /api/roles] accepts a body exactly when title and
    description are strings, department, location and level are each
    absent, null or a string, and requirements is absent or an array of
    strings; so a null requirements is refused although a null department
    is accepted. A refused body raises [ValidationError] and the store is
    not touched, not even by a driver call. *)
Theorem post_roles_validates_the_body (body : gmap string value) :
  (role_body_ok body <-> exists role, RoleCreate.validate body = Ok role) /\
  (~ role_body_ok body ->
     forall db, post_roles body db = (Raise ValidationError, db)) /\
  (body !! "requirements" = Some VNone -> ~ role_body_ok body) /\
  (body !! "title" = None -> ~ role_body_ok body) /\
  (body !! "description" = None -> ~ role_body_ok body).
Proof.
  destruct (role_validate_cases body) as [[Hok [role Hv]]|[Hno Hv]].
  - split; [split; eauto|]. split; [tauto|].
    destruct Hok as ([t Ht] & _ & _ & _ & [d Hd] & [Hr|[ss Hr]]);
      repeat apply conj; congruence.
  - split; [split; [tauto | intros [role H]; congruence]|].
    split.
    { intros _ db. unfold post_roles, with_body. by rewrite Hv. }
    unfold role_body_ok, json_str, json_str_list.
    repeat apply conj; intros H; rewrite H;
      intros ([? ?] & _ & _ & _ & [? ?] & [?|[? ?]]); congruence.
Qed.

Lemma post_roles_validates_the_body_witness :
  post_roles (<["requirements" := VNone]> qa_role_body) (Some seeded_store) =
    (Raise ValidationError, Some seeded_store).
Proof.
  apply (proj1 (proj2 (post_roles_validates_the_body
                         (<["requirements" := VNone]> qa_role_body)))).
  apply (proj1 (proj2 (proj2 (post_roles_validates_the_body
                                (<["requirements" := VNone]> qa_role_body))))).
  reflexivity.
Defined.

(** X3. [POST /api/apply] accepts a body exactly when name and email are
    strings, of any content, and role_id and resume_text are each absent,
    null or a string. A refused body raises [ValidationError] and leaves
    the store untouched; an accepted one, on a store whose calls succeed,
    adds exactly one document to the applicant collection. *)
Theorem post_apply_validates_the_body (body : gmap string value) :
  (applicant_body_ok body <-> exists a, ApplicantCreate.validate body = Ok a) /\
  (~ applicant_body_ok body ->
     forall db, post_apply body db = (Raise ValidationError, db)) /\
  (applicant_body_ok body -> forall s, faults s = [] ->
     exists aid s' d,
       post_apply body (Some s) =
         (Ok (aid, ["Frontend Engineer"; "Backend Engineer"]), Some s') /\
       Driver.docs_of "applicant" s' =
         (Driver.docs_of "applicant" s ++ [(next_oid s, d)])%list /\
       d !! "name" = body !! "name" /\ d !! "email" = body !! "email").
Proof.
  destruct (applicant_validate_cases body) as [[Hok [a Hv]]|[Hno Hv]].
  - split; [split; eauto|]. split; [tauto|].
    intros _ s Hf. eexists _, _, _. unfold post_apply, with_body. rewrite Hv.
    split; [by apply apply_healthy|]. split; [apply docs_of_insert_doc|].
    unfold ApplicantCreate.validate in Hv.
    apply result_bind_ok in Hv as (na & Hna & Hv).
    apply result_bind_ok in Hv as (em & Hem & Hv).
    apply result_bind_ok in Hv as (ro & Hro & Hv).
    apply result_bind_ok in Hv as (re & Hre & Hv).
    injection Hv as <-. apply required_str_ok in Hna, Hem.
    unfold ApplicantCreate.model_dump. cbn. rewrite Hna, Hem.
    by simplify_map_eq.
  - split; [split; [tauto | intros [a H]; congruence]|].
    split; [|tauto].
    intros _ db. unfold post_apply, with_body. by rewrite Hv.
Qed.

Lemma post_apply_validates_the_body_witness :
  post_apply (delete "email" ann_body) (Some seeded_store) =
    (Raise ValidationError, Some seeded_store) /\
  exists aid s' d,
    post_apply bad_email_body (Some seeded_store) =
      (Ok (aid, ["Frontend Engineer"; "Backend Engineer"]), Some s') /\
    Driver.docs_of "applicant" s' = [(3%N, d)] /\
    d !! "email" = Some (VStr "not-an-email").
Proof.
  split.
  - apply (proj1 (proj2 (post_apply_validates_the_body (delete "email" ann_body)))).
    intros (_ & [e He] & _). vm_compute in He. discriminate.
  - destruct (proj2 (proj2 (post_apply_validates_the_body bad_email_body)))
      with (s := seeded_store) as (aid & s' & d & Hrun & Hdocs & _ & Hem).
    + unfold applicant_body_ok, json_opt_str, json_str.
      repeat apply conj; [by exists "Ann" | by exists "not-an-email" | by left | by left].
    + reflexivity.
    + exists aid, s', d. split; [exact Hrun|]. split; [exact Hdocs|exact Hem].
Defined.

End Validation.

(** ** What no handler does to the store *)

Section Preservation.

Context (R : db_t -> db_t -> Prop) (W : string -> Prop).
Hypothesis R_refl : forall db, R db db.
Hypothesis R_trans : forall db1 db2 db3, R db1 db2 -> R db2 db3 -> R db1 db3.
Hypothesis R_faults :
  forall s fs, R (Some s) (Some (Store (colls s) (next_oid s) fs)).
Hypothesis R_insert :
  forall c d s, W c -> R (Some s) (Some (insert_doc c d s)).
Hypothesis R_update :
  forall c o f s ds ds', W c ->
    colls s !! c = Some ds -> Driver.update_first o f ds = Some ds' ->
    R (Some s) (Some (Store (<[c := ds']> (colls s)) (next_oid s) (faults s))).

Lemma preserves_ret {A} (a : A) : preserves R (mret a).
Proof. intros db. apply R_refl. Qed.

Lemma preserves_raise {A} (e : exn) : preserves R (@raise A e).
Proof. intros db. apply R_refl. Qed.

Lemma preserves_get_db : preserves R get_db.
Proof. intros db. apply R_refl. Qed.

Lemma preserves_bool_db : preserves R bool_db.
Proof. intros [s|]; apply R_refl. Qed.

Lemma preserves_lift_option {A} (e : exn) (o : option A) :
  preserves R (lift_option e o).
Proof. destruct o; [apply preserves_ret | apply preserves_raise]. Qed.

Lemma preserves_bind {A B} (m : M A) (f : A -> M B) :
  preserves R m -> (forall a, preserves R (f a)) -> preserves R (m ≫= f).
Proof.
  intros Hm Hf db. unfold mbind, M_bind. specialize (Hm db).
  destruct (m db) as [[a|e] db1]; cbn [snd] in *; [|done].
  eapply R_trans; [exact Hm | apply Hf].
Qed.

Lemma preserves_try_pass (m : M unit) : preserves R m -> preserves R (try_pass m).
Proof.
  intros Hm db. unfold try_pass. specialize (Hm db).
  by destruct (m db) as [[[]|e] db1].
Qed.

Lemma preserves_for_each {A} (xs : list A) (f : A -> M unit) :
  (forall x, preserves R (f x)) -> preserves R (for_each xs f).
Proof.
  intros Hf. induction xs as [|x xs IH]; cbn [for_each].
  - apply preserves_ret.
  - apply preserves_bind; [apply Hf | intros _; apply IH].
Qed.

Lemma preserves_with_body {T A} (validate : gmap string value -> result T)
    (handler : T -> M A) (body : gmap string value) :
  (forall x, preserves R (handler x)) ->
  preserves R (with_body validate handler body).
Proof.
  intros H. unfold with_body.
  destruct (validate body); [apply H | apply preserves_raise].
Qed.

Lemma preserves_call {A} (f : store -> result A * store) :
  (forall s, R (Some s) (Some (f s).2)) -> preserves R (Driver.call f).
Proof.
  intros Hf [s|]; unfold Driver.call; [|apply R_refl].
  destruct (faults s) as [|[] fs].
  - specialize (Hf s). by destruct (f s).
  - apply R_faults.
  - specialize (Hf (Store (colls s) (next_oid s) fs)).
    destruct (f _) as [r s']. cbn [snd] in *.
    eapply R_trans; [apply R_faults | exact Hf].
Qed.

Lemma preserves_read {A} (g : store -> A) :
  preserves R (Driver.call (fun s => (Ok (g s), s))).
Proof. apply preserves_call. intros s. apply R_refl. Qed.

Lemma preserves_insert_one (c : string) (d : gmap string value) :
  W c -> preserves R (Driver.insert_one c d).
Proof. intros Hc. apply preserves_call. intros s. by apply R_insert. Qed.

Lemma preserves_update_one (c : string) (o : ObjectId.t)
    (f : gmap string value -> option (gmap string value)) :
  W c -> preserves R (Driver.update_one c o f).
Proof.
  intros Hc. apply preserves_call. intros s.
  destruct (colls s !! c) as [ds|] eqn:Hds; [|apply R_refl].
  destruct (Driver.update_first o f ds) as [ds'|] eqn:Hup; [|apply R_refl].
  by apply (R_update c o f s ds ds').
Qed.

Lemma preserves_create_document (c : string) (d : gmap string value) :
  W c -> preserves R (create_document c d).
Proof.
  intros Hc. apply preserves_bind; [by apply preserves_insert_one|].
  intros o. apply preserves_ret.
Qed.

Lemma preserves_expose_ids (items : list pydoc) : preserves R (expose_ids items).
Proof.
  induction items as [|x items IH]; cbn [expose_ids]; [apply preserves_ret|].
  apply preserves_bind.
  - apply preserves_bind; [apply preserves_lift_option|].
    intros o. apply preserves_ret.
  - intros x'. apply preserves_bind; [apply IH|]. intros r. apply preserves_ret.
Qed.

Lemma preserves_get_role (role_id : string) : preserves R (get_role role_id).
Proof.
  apply preserves_bind; [apply preserves_get_db|]. intros [s|]; [|apply preserves_ret].
  apply preserves_bind; [apply preserves_lift_option|]. intros o.
  apply preserves_bind; [apply preserves_read|]. intros [it|]; [|apply preserves_ret].
  destruct (truthy_doc it); [|apply preserves_ret].
  apply preserves_bind; [|intros it'; apply preserves_ret].
  apply preserves_bind; [apply preserves_lift_option|].
  intros o'. apply preserves_ret.
Qed.

Lemma preserves_apply (a : ApplicantCreate.t) :
  W "applicant" -> preserves R (apply a).
Proof.
  intros Hw. apply preserves_bind; [by apply preserves_create_document|].
  intros aid. apply preserves_ret.
Qed.

Lemma preserves_start_interview (applicant_id role_id : string) :
  W "interview" -> preserves R (start_interview applicant_id role_id).
Proof. intros Hw. by apply preserves_create_document. Qed.

Lemma preserves_chat_appends (interview_id user_msg reply : string) :
  W "interview" -> preserves R (chat_appends interview_id user_msg reply).
Proof.
  intros Hw. apply preserves_bind; [apply preserves_lift_option|]. intros o.
  apply preserves_bind; [by apply preserves_update_one|]. intros _.
  apply preserves_bind; [apply preserves_lift_option|]. intros o'.
  by apply preserves_update_one.
Qed.

Lemma preserves_chat (turn : ChatTurn.t) :
  W "interview" -> preserves R (chat turn).
Proof.
  intros Hw. apply preserves_bind; [apply preserves_bool_db|]. intros b.
  apply preserves_bind; [|intros _; apply preserves_ret].
  destruct b; [by apply preserves_chat_appends | apply preserves_ret].
Qed.

Lemma preserves_start_coding (interview_id : string) :
  W "interview" -> preserves R (start_coding interview_id).
Proof.
  intros Hw. apply preserves_bind; [apply preserves_bool_db|]. intros b.
  apply preserves_bind; [|intros _; apply preserves_ret].
  destruct b; [|apply preserves_ret].
  apply preserves_bind; [apply preserves_lift_option|]. intros o.
  by apply preserves_update_one.
Qed.

Lemma preserves_complete (interview_id : string) :
  W "result" -> preserves R (complete interview_id).
Proof.
  intros Hw. apply preserves_bind; [by apply preserves_create_document|].
  intros rid. apply preserves_ret.
Qed.

Lemma preserves_admin_applicants : preserves R admin_applicants.
Proof.
  apply preserves_bind; [apply preserves_bool_db|]. intros b.
  destruct (negb b); [apply preserves_ret|].
  apply preserves_bind; [apply preserves_read|]. apply preserves_expose_ids.
Qed.

Lemma preserves_admin_interviews : preserves R admin_interviews.
Proof.
  apply preserves_bind; [apply preserves_bool_db|]. intros b.
  destruct (negb b); [apply preserves_ret|].
  apply preserves_bind; [apply preserves_read|]. apply preserves_expose_ids.
Qed.

Lemma preserves_test_database (env : gmap string string) (str_exc : exn -> string) :
  preserves R (test_database env str_exc).
Proof.
  intros [s|]; unfold test_database, Driver.list_collection_names;
    [|apply R_refl].
  pose proof (preserves_read (fun s => dom (colls s)) (Some s)) as H.
  destruct (Driver.call _ (Some s)) as [[names|e] db']; exact H.
Qed.

Lemma preserves_seed_roles : W "role" -> preserves R seed_roles.
Proof.
  intros Hw. apply preserves_try_pass.
  apply preserves_bind; [apply preserves_get_db|]. intros [s|]; [|apply preserves_ret].
  apply preserves_bind; [apply preserves_read|]. intros names.
  apply preserves_bind.
  - destruct (bool_decide _); [apply preserves_ret|].
    apply preserves_bind; [apply preserves_read|]. intros n. apply preserves_ret.
  - intros [|]; [|apply preserves_ret]. apply preserves_for_each. intros r.
    apply preserves_bind; [by apply preserves_create_document|].
    intros _. apply preserves_ret.
Qed.

Lemma preserves_create_role (role : RoleCreate.t) :
  W "role" -> preserves R (create_role role).
Proof. intros Hw. by apply preserves_create_document. Qed.

End Preservation.

Section RolesImmutable.

Lemma same_roles_refl (db : db_t) : same_roles db db.
Proof. reflexivity. Qed.

Lemma same_roles_trans (db1 db2 db3 : db_t) :
  same_roles db1 db2 -> same_roles db2 db3 -> same_roles db1 db3.
Proof. unfold same_roles. congruence. Qed.

Lemma same_roles_faults (s : store) (fs : list bool) :
  same_roles (Some s) (Some (Store (colls s) (next_oid s) fs)).
Proof. reflexivity. Qed.

Lemma same_roles_insert (c : string) (d : gmap string value) (s : store) :
  c <> "role" -> same_roles (Some s) (Some (insert_doc c d s)).
Proof. intros Hc. unfold same_roles, role_docs. by apply docs_of_insert_doc_ne. Qed.

Lemma same_roles_update (c : string) (o : ObjectId.t)
    (f : gmap string value -> option (gmap string value)) (s : store)
    (ds ds' : list (oid * gmap string value)) :
  c <> "role" -> colls s !! c = Some ds -> Driver.update_first o f ds = Some ds' ->
  same_roles (Some s)
    (Some (Store (<[c := ds']> (colls s)) (next_oid s) (faults s))).
Proof.
  intros Hc _ _. unfold same_roles, role_docs. by apply docs_of_store_insert_ne.
Qed.

Lemma get_role_same_roles (role_id : string) (s s' : store) :
  faults s = [] -> faults s' = [] ->
  Driver.docs_of "role" s' = Driver.docs_of "role" s ->
  (get_role role_id (Some s')).1 = (get_role role_id (Some s)).1.
Proof.
  intros Hf Hf' Hdocs. destruct (ObjectId.parse role_id) as [o|] eqn:Hid.
  - by rewrite !(get_role_healthy _ _ o), Hdocs by done.
  - by rewrite !get_role_invalid_id by done.
Qed.

(** X13. Role documents are written by [create_role] and by seeding only.
    Every other handler leaves the role collection exactly as it was,
    whatever its input, the store and the fate of its driver calls, so
    on stores whose calls succeed [get_role] answers the same before and
    after it. [create_role] itself changes the collection only by adding
    at most one document at its end. *)
Theorem roles_are_written_by_create_and_seed_only :
  (forall role_id, preserves same_roles (get_role role_id)) /\
  (forall body, preserves same_roles (post_apply body)) /\
  (forall applicant_id role_id,
     preserves same_roles (start_interview applicant_id role_id)) /\
  (forall body, preserves same_roles (post_chat body)) /\
  (forall interview_id, preserves same_roles (start_coding interview_id)) /\
  (forall body, preserves same_roles (post_run_code body)) /\
  (forall interview_id, preserves same_roles (complete interview_id)) /\
  preserves same_roles admin_applicants /\
  preserves same_roles admin_interviews /\
  (forall env str_exc, preserves same_roles (test_database env str_exc)) /\
  (forall content, preserves same_roles (upload_resume content)) /\
  (forall role db, exists new,
     role_docs (create_role role db).2 = (role_docs db ++ new)%list /\
     (List.length new <= 1)%nat) /\
  (forall role_id s s', faults s = [] -> faults s' = [] ->
     same_roles (Some s) (Some s') ->
     (get_role role_id (Some s')).1 = (get_role role_id (Some s)).1).
Proof.
  pose proof same_roles_refl as Hr. pose proof same_roles_trans as Ht.
  pose proof same_roles_faults as Hfa.
  pose proof same_roles_insert as Hi. pose proof same_roles_update as Hu.
  repeat apply conj.
  - intros role_id. by apply preserves_get_role.
  - intros body. apply preserves_with_body; [done|]. intros a.
    by apply (preserves_apply same_roles (fun c => c <> "role")).
  - intros a r.
    by apply (preserves_start_interview same_roles (fun c => c <> "role")).
  - intros body. apply preserves_with_body; [done|]. intros turn.
    by apply (preserves_chat same_roles (fun c => c <> "role")).
  - intros i. by apply (preserves_start_coding same_roles (fun c => c <> "role")).
  - intros body. apply preserves_with_body; [done|]. intros req db. reflexivity.
  - intros i. by apply (preserves_complete same_roles (fun c => c <> "role")).
  - by apply preserves_admin_applicants.
  - by apply preserves_admin_interviews.
  - intros env str_exc. by apply preserves_test_database.
  - intros content db. reflexivity.
  - intros role [s|]; [|exists []; split; [reflexivity | cbn; lia]].
    unfold create_role.
    destruct (create_document_cases "role" (RoleCreate.model_dump role) s)
      as (s0 & Hsame & [H|H]); rewrite H; cbn [snd role_docs].
    + exists []. rewrite app_nil_r. split; [by apply docs_of_same_data | cbn; lia].
    + eexists [_]. rewrite docs_of_insert_doc, (docs_of_same_data _ s s0) by done.
      split; [reflexivity | cbn; lia].
  - intros role_id s s' Hf Hf' Hsame. by apply get_role_same_roles.
Qed.

Lemma roles_are_written_by_create_and_seed_only_witness :
  (get_role (ObjectId.str 1%N)
     (Some (insert_doc "result" (result_doc "i1") seeded_store))).1 =
  (get_role (ObjectId.str 1%N) (Some seeded_store)).1.
Proof.
  destruct roles_are_written_by_create_and_seed_only
    as (_ & _ & _ & _ & _ & _ & _ & _ & _ & _ & _ & _ & Hget).
  apply Hget; reflexivity.
Defined.

End RolesImmutable.

Section NeverDeletes.

Lemma grows_refl (db : db_t) : grows db db.
Proof. intros c. reflexivity. Qed.

Lemma grows_trans (db1 db2 db3 : db_t) :
  grows db1 db2 -> grows db2 db3 -> grows db1 db3.
Proof. intros H1 H2 c. etrans; [apply H1 | apply H2]. Qed.

Lemma grows_faults (s : store) (fs : list bool) :
  grows (Some s) (Some (Store (colls s) (next_oid s) fs)).
Proof. intros c. reflexivity. Qed.

Lemma grows_insert (c : string) (d : gmap string value) (s : store) :
  True -> grows (Some s) (Some (insert_doc c d s)).
Proof.
  intros _ c'. unfold ids_of. destruct (decide (c = c')) as [<-|Hne].
  - rewrite docs_of_insert_doc, fmap_app. by apply prefix_app_r.
  - by rewrite docs_of_insert_doc_ne.
Qed.

Lemma update_first_ids (o : ObjectId.t)
    (f : gmap string value -> option (gmap string value))
    (ds ds' : list (oid * gmap string value)) :
  Driver.update_first o f ds = Some ds' -> ds'.*1 = ds.*1.
Proof.
  revert ds'. induction ds as [|d ds IH]; intros ds'; cbn [Driver.update_first].
  - by intros [= <-].
  - destruct (Driver.has_id o d).
    + destruct (f d.2) as [fs|]; [|done]. by intros [= <-].
    + destruct (Driver.update_first o f ds) as [ds1|]; [|done].
      intros [= <-]. cbn. by rewrite (IH ds1).
Qed.

Lemma grows_update (c : string) (o : ObjectId.t)
    (f : gmap string value -> option (gmap string value)) (s : store)
    (ds ds' : list (oid * gmap string value)) :
  True -> colls s !! c = Some ds -> Driver.update_first o f ds = Some ds' ->
  grows (Some s) (Some (Store (<[c := ds']> (colls s)) (next_oid s) (faults s))).
Proof.
  intros _ Hds Hup c'. unfold ids_of. destruct (decide (c = c')) as [<-|Hne].
  - rewrite docs_of_store_insert. unfold Driver.docs_of. rewrite Hds. cbn [default].
    by rewrite (update_first_ids _ _ _ _ Hup).
  - by rewrite docs_of_store_insert_ne.
Qed.

(** X14. No handler removes a document, reorders a collection or gives a
    stored document another id: after any handler, on any input, from any
    store and whatever driver calls fail, the ids each collection held
    before are the first ids it holds after, in the same order. *)
Theorem no_handler_removes_a_document :
  preserves grows seed_roles /\
  (forall env str_exc, preserves grows (test_database env str_exc)) /\
  (forall role_id, preserves grows (get_role role_id)) /\
  (forall body, preserves grows (post_roles body)) /\
  (forall body, preserves grows (post_apply body)) /\
  (forall content, preserves grows (upload_resume content)) /\
  (forall applicant_id role_id,
     preserves grows (start_interview applicant_id role_id)) /\
  (forall body, preserves grows (post_chat body)) /\
  (forall interview_id, preserves grows (start_coding interview_id)) /\
  (forall body, preserves grows (post_run_code body)) /\
  (forall interview_id, preserves grows (complete interview_id)) /\
  preserves grows admin_applicants /\
  preserves grows admin_interviews.
Proof.
  pose proof grows_refl as Hr. pose proof grows_trans as Ht.
  pose proof grows_faults as Hfa.
  pose proof grows_insert as Hi. pose proof grows_update as Hu.
  repeat apply conj.
  - by apply (preserves_seed_roles grows (fun _ => True)).
  - intros env str_exc. by apply preserves_test_database.
  - intros role_id. by apply preserves_get_role.
  - intros body. apply preserves_with_body; [done|]. intros role.
    by apply (preserves_create_role grows (fun _ => True)).
  - intros body. apply preserves_with_body; [done|]. intros a.
    by apply (preserves_apply grows (fun _ => True)).
  - intros content db. apply grows_refl.
  - intros a r. by apply (preserves_start_interview grows (fun _ => True)).
  - intros body. apply preserves_with_body; [done|]. intros turn.
    by apply (preserves_chat grows (fun _ => True)).
  - intros i. by apply (preserves_start_coding grows (fun _ => True)).
  - intros body. apply preserves_with_body; [done|]. intros req db.
    apply grows_refl.
  - intros i. by apply (preserves_complete grows (fun _ => True)).
  - by apply preserves_admin_applicants.
  - by apply preserves_admin_interviews.
Qed.

End NeverDeletes.
